(** * Peer-connection negotiation hook (src/hooks/useWebRTC.ts)

    A shallow embedding of the [useWebRTC] hook and of the slice of
    [socketService] it talks to.  The hook keeps a registry of peer
    sessions ([peersRef]), a mirror of it in React state ([peers]), a map
    from user ids to connection states and an [isInitialized] flag.  Its
    callbacks mutate that state and call into two collaborators: the
    connection primitive ([simple-peer]) and the socket service.  Both are
    kept abstract: calls to them are recorded in a trace of effects, and
    what the primitive answers (does [signal] or [destroy] throw, which
    senders does the underlying [RTCPeerConnection] hold) is a parameter
    of the development. *)

From stdpp Require Import gmap strings list fin_maps.

(** ** Data model *)

(** [MediaStreamTrack]: only the [kind] is read by the hook; [label]
    tells tracks apart. *)
Module MediaStreamTrack.
Record t := { kind : string; label : string }.
End MediaStreamTrack.

Module MediaStream.
Record t := { tracks : list MediaStreamTrack.t }.

Definition ofKind (k : string) (s : t) : list MediaStreamTrack.t :=
  List.filter (fun tr => String.eqb (MediaStreamTrack.kind tr) k) (tracks s).
Definition getVideoTracks : t -> list MediaStreamTrack.t := ofKind "video".
Definition getAudioTracks : t -> list MediaStreamTrack.t := ofKind "audio".
End MediaStream.

(** A signaling payload ([any] in the source).  The hook only reads its
    [type] field, which is absent on candidates. *)
Module Signal.
Record t := { type : option string; body : string }.
End Signal.

(** [RTCRtpSender]: [s.track?.kind] is all the hook looks at. *)
Module RTCRtpSender.
Record t := { track : option MediaStreamTrack.t }.

Definition carries (k : string) (s : t) : bool :=
  match track s with
  | Some tr => String.eqb (MediaStreamTrack.kind tr) k
  | None => false
  end.
End RTCRtpSender.

(** [Participant], as declared next to the socket service. *)
Module Participant.
Record t := {
  userId : string;
  id : option string;
  socketId : option string;
  username : string;
  firstName : string;
  lastName : string;
  role : string;
  joinedAt : option string;
  lastSeen : option string;
  audioEnabled : option bool;
  videoEnabled : option bool;
  screenSharing : option bool;
  handRaised : option bool
}.
End Participant.

(** [WebRTCSignalData]: what the relay delivers on the offer, answer and
    ice-candidate channels. *)
Module WebRTCSignalData.
Record t := {
  fromUserId : string;
  fromUsername : string;
  fromFirstName : option string;
  fromLastName : option string;
  offer : option Signal.t;
  answer : option Signal.t;
  candidate : option Signal.t
}.
End WebRTCSignalData.

(** The two sets of listeners the hook attaches to a primitive: the ones
    of [createPeer] and the ones of [handleOffer].  Each closes over the
    remote user's id and name. *)
Inductive Listeners :=
| ByCreatePeer (targetUserId targetUsername : string)
| ByHandleOffer (fromUserId fromUsername : string).

(** A [simple-peer] instance, as far as the hook configures it.  [handle]
    stands for the identity of the JavaScript object. *)
Module Peer.
Record t := {
  handle : nat;
  initiator : bool;
  trickle : bool;
  stream : MediaStream.t;
  iceServers : list string;
  listeners : Listeners
}.
End Peer.

Definition iceServers : list string :=
  ["stun:stun.l.google.com:19302"; "stun:stun1.l.google.com:19302"].

Module PeerConnection.
Record t := {
  peerId : string;
  peer : Peer.t;
  stream : option MediaStream.t;
  userId : string;
  username : string;
  firstName : option string;
  lastName : option string;
  role : option string;
  audioEnabled : option bool;
  videoEnabled : option bool;
  screenSharing : option bool
}.

(** [{ ...p, stream: remoteStream }] *)
Definition withStream (remote : MediaStream.t) (p : t) : t :=
  {| peerId := peerId p; peer := peer p; stream := Some remote;
     userId := userId p; username := username p;
     firstName := firstName p; lastName := lastName p; role := role p;
     audioEnabled := audioEnabled p; videoEnabled := videoEnabled p;
     screenSharing := screenSharing p |}.
End PeerConnection.

(** ** Effects *)

(** Calls that leave the hook: into the primitive, into the socket
    service, and [console.error]. *)
Inductive Effect :=
| NewPeer (p : Peer.t)
| PeerSignal (p : Peer.t) (data : option Signal.t)
| PeerDestroy (p : Peer.t)
| ReplaceTrack (p : Peer.t) (sender : RTCRtpSender.t) (track : MediaStreamTrack.t)
| SendOffer (targetUserId : string) (offer : Signal.t)
| SendAnswer (targetUserId : string) (answer : Signal.t)
| SendIceCandidate (targetUserId : string) (candidate : Signal.t)
| ConsoleError (msg : string).

(** The hook's mutable state: the two refs, the two pieces of React state
    and [fresh], the next unused object identity for a primitive.  The
    updaters handed to [setPeers] and [setConnectionStates] are applied
    at once, in call order. *)
Record State := {
  peersRef : list PeerConnection.t;
  peers : list PeerConnection.t;
  connectionStates : gmap string string;
  isInitialized : bool;
  fresh : nat
}.

Definition initialState : State :=
  {| peersRef := []; peers := []; connectionStates := ∅;
     isInitialized := false; fresh := 0 |}.

Definition set_peersRef (f : list PeerConnection.t -> list PeerConnection.t) (s : State) : State :=
  {| peersRef := f (peersRef s); peers := peers s;
     connectionStates := connectionStates s;
     isInitialized := isInitialized s; fresh := fresh s |}.

Definition setPeers (f : list PeerConnection.t -> list PeerConnection.t) (s : State) : State :=
  {| peersRef := peersRef s; peers := f (peers s);
     connectionStates := connectionStates s;
     isInitialized := isInitialized s; fresh := fresh s |}.

Definition setConnectionStates (f : gmap string string -> gmap string string) (s : State) : State :=
  {| peersRef := peersRef s; peers := peers s;
     connectionStates := f (connectionStates s);
     isInitialized := isInitialized s; fresh := fresh s |}.

Definition set_isInitialized (b : bool) (s : State) : State :=
  {| peersRef := peersRef s; peers := peers s;
     connectionStates := connectionStates s;
     isInitialized := b; fresh := fresh s |}.

Definition bump_fresh (s : State) : State :=
  {| peersRef := peersRef s; peers := peers s;
     connectionStates := connectionStates s;
     isInitialized := isInitialized s; fresh := S (fresh s) |}.

(** ** A state, trace and exception monad *)

Inductive Completion (A : Type) :=
| Normal (a : A)
| Throw (e : string).
Arguments Normal {A} a.
Arguments Throw {A} e.

Record Result (St A : Type) := mkResult {
  completion : Completion A;
  final : St;
  trace : list Effect
}.
Arguments mkResult {St A}.
Arguments completion {St A}.
Arguments final {St A}.
Arguments trace {St A}.

Definition M (St A : Type) : Type := St -> Result St A.

Definition ret {St A} (a : A) : M St A := fun s => mkResult (Normal a) s [].

Definition bind {St A B} (m : M St A) (k : A -> M St B) : M St B :=
  fun s =>
    let r := m s in
    match completion r with
    | Normal a =>
        let r' := k a (final r) in
        mkResult (completion r') (final r') (trace r ++ trace r')
    | Throw e => mkResult (Throw e) (final r) (trace r)
    end.

Definition get {St} : M St St := fun s => mkResult (Normal s) s [].
Definition modify {St} (f : St -> St) : M St unit := fun s => mkResult (Normal tt) (f s) [].
Definition emit {St} (e : Effect) : M St unit := fun s => mkResult (Normal tt) s [e].
Definition throw {St A} (e : string) : M St A := fun s => mkResult (Throw e) s [].

(** [try { m } catch (error) { h error }] *)
Definition tryCatch {St A} (m : M St A) (h : string -> M St A) : M St A :=
  fun s =>
    let r := m s in
    match completion r with
    | Normal a => r
    | Throw e =>
        let r' := h e (final r) in
        mkResult (completion r') (final r') (trace r ++ trace r')
    end.

#[global] Instance M_ret {St} : MRet (M St) := @ret St.
#[global] Instance M_bind {St} : MBind (M St) := fun A B k m => bind m k.

(** [xs.forEach(f)] *)
Fixpoint forEach {St A} (f : A -> M St unit) (xs : list A) : M St unit :=
  match xs with
  | [] => ret tt
  | x :: xs' => f x ;; forEach f xs'
  end.

Definition consoleError {St} (msg : string) : M St unit := emit (ConsoleError msg).

(** ** The socket service, as far as signaling goes *)

Module SocketService.
(** What a send operation does: emit on the socket when connected,
    log an error otherwise. *)
Inductive Wire :=
| Emit (event : string) (targetUserId : string) (payload : Signal.t)
| LogError (msg : string).

Definition sendOffer (connected : bool) (targetUserId : string) (offer : Signal.t) : Wire :=
  if connected then Emit "offer" targetUserId offer
  else LogError "Socket not connected when trying to send offer".

Definition sendAnswer (connected : bool) (targetUserId : string) (answer : Signal.t) : Wire :=
  if connected then Emit "answer" targetUserId answer
  else LogError "Socket not connected when trying to send answer".

Definition sendIceCandidate (connected : bool) (targetUserId : string) (candidate : Signal.t) : Wire :=
  if connected then Emit "ice-candidate" targetUserId candidate
  else LogError "Socket not connected when trying to send ICE candidate".

(** The socket traffic a hook effect stands for. *)
Definition wire (connected : bool) (e : Effect) : option Wire :=
  match e with
  | SendOffer u o => Some (sendOffer connected u o)
  | SendAnswer u a => Some (sendAnswer connected u a)
  | SendIceCandidate u c => Some (sendIceCandidate connected u c)
  | _ => None
  end.
End SocketService.

(** [RTCPeerConnection], reduced to [getSenders()]. *)
Module RTCPeerConnection.
Record t := { getSenders : list RTCRtpSender.t }.
End RTCPeerConnection.

(** Events the primitive emits towards the listeners of a session. *)
Inductive PeerEvent :=
| OnSignal (signal : Signal.t)
| OnStream (remoteStream : MediaStream.t)
| OnConnect
| OnError (err : string)
| OnClose.

(** [peersRef.current.find(p => p.userId === userId)] *)
Definition findPeer (uid : string) (l : list PeerConnection.t) : option PeerConnection.t :=
  List.find (fun p => String.eqb (PeerConnection.userId p) uid) l.

(** [.filter(p => p.userId !== userId)] *)
Definition withoutPeer (uid : string) (l : list PeerConnection.t) : list PeerConnection.t :=
  List.filter (fun p => negb (String.eqb (PeerConnection.userId p) uid)) l.

(** [.map(p => p.userId === targetUserId ? { ...p, stream: remoteStream } : p)] *)
Definition attachStream (uid : string) (remote : MediaStream.t)
    (l : list PeerConnection.t) : list PeerConnection.t :=
  List.map (fun p => if String.eqb (PeerConnection.userId p) uid
                     then PeerConnection.withStream remote p else p) l.

(** ** The hook *)

Section Hook.
(** The local identity the hook is called with. *)
Variable userId : string.
(** The primitive as a black box: whether [peer.signal(data)] and
    [peer.destroy()] throw, and the [_pc] field [updateLocalStream]
    reaches into. *)
Variable signalThrows : Peer.t -> option Signal.t -> bool.
Variable destroyThrows : Peer.t -> bool.
Variable _pc : Peer.t -> option RTCPeerConnection.t.

(** [new Peer({ initiator, trickle: false, stream, config })] followed
    by the [peer.on] registrations. *)
Definition newPeer (initiator : bool) (stream : MediaStream.t) (ls : Listeners)
    : M State Peer.t :=
  s ← get;
  let p := {| Peer.handle := fresh s; Peer.initiator := initiator;
              Peer.trickle := false; Peer.stream := stream;
              Peer.iceServers := iceServers; Peer.listeners := ls |} in
  modify bump_fresh ;;
  emit (NewPeer p) ;;
  mret p.

Definition signal (p : Peer.t) (data : option Signal.t) : M State unit :=
  emit (PeerSignal p data) ;;
  if signalThrows p data then throw "signal" else mret tt.

Definition destroy (p : Peer.t) : M State unit :=
  emit (PeerDestroy p) ;;
  if destroyThrows p then throw "destroy" else mret tt.

Definition createPeer (targetUserId targetUsername : string)
    (targetUserData : Participant.t) (stream : MediaStream.t) (initiator : bool)
    : M State Peer.t :=
  peer ← newPeer initiator stream (ByCreatePeer targetUserId targetUsername);
  let peerConnection :=
    {| PeerConnection.peerId := targetUserId;
       PeerConnection.peer := peer;
       PeerConnection.stream := None;
       PeerConnection.userId := targetUserId;
       PeerConnection.username := targetUsername;
       PeerConnection.firstName := Some (Participant.firstName targetUserData);
       PeerConnection.lastName := Some (Participant.lastName targetUserData);
       PeerConnection.role := Some (Participant.role targetUserData);
       PeerConnection.audioEnabled := Participant.audioEnabled targetUserData;
       PeerConnection.videoEnabled := Participant.videoEnabled targetUserData;
       PeerConnection.screenSharing := Participant.screenSharing targetUserData |} in
  modify (set_peersRef (fun l => l ++ [peerConnection])) ;;
  modify (setPeers (fun prevPeers => prevPeers ++ [peerConnection])) ;;
  modify (setConnectionStates (fun prev => <[targetUserId := "connecting"]> prev)) ;;
  mret peer.

Definition removePeer (uid : string) : M State unit :=
  s ← get;
  match findPeer uid (peersRef s) with
  | Some peerConnection =>
      tryCatch (destroy (PeerConnection.peer peerConnection))
               (fun _ => consoleError "Error destroying peer:") ;;
      modify (set_peersRef (withoutPeer uid)) ;;
      modify (setPeers (withoutPeer uid)) ;;
      modify (setConnectionStates (fun prev => delete uid prev))
  | None => mret tt
  end.

Definition handleOffer (localStream : option MediaStream.t)
    (data : WebRTCSignalData.t) : M State unit :=
  match localStream with
  | None => consoleError "No local stream available to handle offer"
  | Some stream =>
      let fromUserId := WebRTCSignalData.fromUserId data in
      let fromUsername := WebRTCSignalData.fromUsername data in
      s ← get;
      match findPeer fromUserId (peersRef s) with
      | Some existingPeer => mret tt
      | None =>
          peer ← newPeer false stream (ByHandleOffer fromUserId fromUsername);
          signal peer (WebRTCSignalData.offer data) ;;
          let peerConnection :=
            {| PeerConnection.peerId := fromUserId;
               PeerConnection.peer := peer;
               PeerConnection.stream := None;
               PeerConnection.userId := fromUserId;
               PeerConnection.username := fromUsername;
               PeerConnection.firstName := Some fromUsername;
               PeerConnection.lastName := Some "";
               PeerConnection.role := Some "attendee";
               PeerConnection.audioEnabled := None;
               PeerConnection.videoEnabled := None;
               PeerConnection.screenSharing := None |} in
          modify (set_peersRef (fun l => l ++ [peerConnection])) ;;
          modify (setPeers (fun prevPeers => prevPeers ++ [peerConnection])) ;;
          modify (setConnectionStates (fun prev => <[fromUserId := "connecting"]> prev))
      end
  end.

Definition handleAnswer (data : WebRTCSignalData.t) : M State unit :=
  s ← get;
  match findPeer (WebRTCSignalData.fromUserId data) (peersRef s) with
  | Some peerConnection =>
      tryCatch (signal (PeerConnection.peer peerConnection) (WebRTCSignalData.answer data))
               (fun _ => consoleError "Error handling answer:")
  | None => consoleError "No peer found for answer from:"
  end.

Definition handleIceCandidate (data : WebRTCSignalData.t) : M State unit :=
  s ← get;
  match findPeer (WebRTCSignalData.fromUserId data) (peersRef s) with
  | Some peerConnection =>
      tryCatch (signal (PeerConnection.peer peerConnection) (WebRTCSignalData.candidate data))
               (fun _ => consoleError "Error handling ICE candidate:")
  | None => consoleError "No peer found for ICE candidate from:"
  end.

Definition initializeWebRTC (participants : list Participant.t)
    (stream : option MediaStream.t) : M State unit :=
  s ← get;
  match stream with
  | None => mret tt
  | Some stream =>
      if isInitialized s then mret tt
      else
        modify (set_isInitialized true) ;;
        forEach (fun participant =>
                   if negb (String.eqb (Participant.userId participant) userId)
                   then createPeer (Participant.userId participant)
                                   (Participant.username participant)
                                   participant stream true ;; mret tt
                   else mret tt)
                participants
  end.

(** Only logs: the new participant is expected to send the offer. *)
Definition handleParticipantJoined (user : Participant.t)
    (stream : option MediaStream.t) : M State unit :=
  mret tt.

Definition handleParticipantLeft (uid : string) : M State unit :=
  removePeer uid.

(** *** Listeners attached to the primitive *)

(** [peer.on('signal', ...)] as registered by [createPeer]. *)
Definition createPeer_onSignal (targetUserId : string) (signal : Signal.t) : M State unit :=
  match Signal.type signal with
  | Some ty =>
      if String.eqb ty "offer" then emit (SendOffer targetUserId signal)
      else if String.eqb ty "answer" then emit (SendAnswer targetUserId signal)
      else emit (SendIceCandidate targetUserId signal)
  | None => emit (SendIceCandidate targetUserId signal)
  end.

(** [peer.on('signal', ...)] as registered by [handleOffer]. *)
Definition handleOffer_onSignal (fromUserId : string) (signal : Signal.t) : M State unit :=
  match Signal.type signal with
  | Some ty =>
      if String.eqb ty "answer" then emit (SendAnswer fromUserId signal)
      else emit (SendIceCandidate fromUserId signal)
  | None => emit (SendIceCandidate fromUserId signal)
  end.

(** [peer.on('stream', ...)], the same in both: the updater of
    [setPeers] also overwrites [peersRef.current]. *)
Definition onStream (uid : string) (remoteStream : MediaStream.t) : M State unit :=
  s ← get;
  let updatedPeers := attachStream uid remoteStream (peers s) in
  modify (set_peersRef (fun _ => updatedPeers)) ;;
  modify (setPeers (fun _ => updatedPeers)) ;;
  modify (setConnectionStates (fun prev => <[uid := "connected"]> prev)).

Definition onError (uid : string) : M State unit :=
  consoleError "Peer error" ;;
  modify (setConnectionStates (fun prev => <[uid := "failed"]> prev)).

(** The listener of primitive [p] for event [e]. *)
Definition peerEvent (p : Peer.t) (e : PeerEvent) : M State unit :=
  match Peer.listeners p, e with
  | ByCreatePeer targetUserId _, OnSignal signal => createPeer_onSignal targetUserId signal
  | ByCreatePeer targetUserId _, OnStream remoteStream => onStream targetUserId remoteStream
  | ByCreatePeer targetUserId _, OnConnect =>
      modify (setConnectionStates (fun prev => <[targetUserId := "connected"]> prev))
  | ByCreatePeer targetUserId _, OnError _ => onError targetUserId
  | ByCreatePeer targetUserId _, OnClose => removePeer targetUserId
  | ByHandleOffer fromUserId _, OnSignal signal => handleOffer_onSignal fromUserId signal
  | ByHandleOffer fromUserId _, OnStream remoteStream => onStream fromUserId remoteStream
  | ByHandleOffer fromUserId _, OnConnect => mret tt
  | ByHandleOffer fromUserId _, OnError _ => onError fromUserId
  | ByHandleOffer fromUserId _, OnClose => removePeer fromUserId
  end.

(** *** Stream replacement and teardown *)

(** [sender.replaceTrack(track)] on the first sender carrying a track
    of kind [k], when [track] is there and such a sender exists. *)
Definition replaceKind (p : Peer.t) (rtcPeerConnection : RTCPeerConnection.t)
    (k : string) (track : option MediaStreamTrack.t) : M State unit :=
  match track with
  | Some tr =>
      match List.find (RTCRtpSender.carries k)
                      (RTCPeerConnection.getSenders rtcPeerConnection) with
      | Some sender => emit (ReplaceTrack p sender tr)
      | None => mret tt
      end
  | None => mret tt
  end.

(** The body of the [forEach] in [updateLocalStream]. *)
Definition updateLocalStreamFor (newStream : MediaStream.t)
    (peerConnection : PeerConnection.t) : M State unit :=
  tryCatch
    (let videoTrack := head (MediaStream.getVideoTracks newStream) in
     let audioTrack := head (MediaStream.getAudioTracks newStream) in
     let peerInstance := PeerConnection.peer peerConnection in
     match _pc peerInstance with
     | Some rtcPeerConnection =>
         replaceKind peerInstance rtcPeerConnection "video" videoTrack ;;
         replaceKind peerInstance rtcPeerConnection "audio" audioTrack
     | None => mret tt
     end)
    (fun _ => consoleError "Error updating stream for peer:").

Definition updateLocalStream (newStream : MediaStream.t) : M State unit :=
  s ← get;
  forEach (updateLocalStreamFor newStream) (peersRef s).

Definition cleanup : M State unit :=
  modify (set_isInitialized false) ;;
  s ← get;
  forEach (fun peerConnection =>
             tryCatch (destroy (PeerConnection.peer peerConnection))
                      (fun _ => consoleError "Error destroying peer during cleanup:"))
          (peersRef s) ;;
  modify (set_peersRef (fun _ => [])) ;;
  modify (setPeers (fun _ => [])) ;;
  modify (setConnectionStates (fun _ => ∅)).

(** *** The hook as a state machine *)

(** Everything that can reach the hook: calls by the page, events the
    relay delivers, and events of a primitive.  An inbound offer comes
    with the [localStream] of the render whose [handleOffer] is
    subscribed. *)
Inductive Event :=
| Initialize (participants : list Participant.t) (stream : option MediaStream.t)
| InboundOffer (localStream : option MediaStream.t) (data : WebRTCSignalData.t)
| InboundAnswer (data : WebRTCSignalData.t)
| InboundCandidate (data : WebRTCSignalData.t)
| ParticipantJoined (user : Participant.t) (stream : option MediaStream.t)
| ParticipantLeft (uid : string)
| UpdateLocalStream (newStream : MediaStream.t)
| Cleanup
| FromPeer (p : Peer.t) (e : PeerEvent).

Definition handler (ev : Event) : M State unit :=
  match ev with
  | Initialize participants stream => initializeWebRTC participants stream
  | InboundOffer localStream data => handleOffer localStream data
  | InboundAnswer data => handleAnswer data
  | InboundCandidate data => handleIceCandidate data
  | ParticipantJoined user stream => handleParticipantJoined user stream
  | ParticipantLeft uid => handleParticipantLeft uid
  | UpdateLocalStream newStream => updateLocalStream newStream
  | Cleanup => cleanup
  | FromPeer p e => peerEvent p e
  end.

(** One turn of the event loop.  An exception escaping a handler is
    caught by the emitter that called it ([try]/[catch] around every
    handler in the socket service) and logged. *)
Definition step (ev : Event) : M State unit :=
  tryCatch (handler ev) (fun _ => consoleError "Error in event handler").

Definition run (evs : list Event) : M State unit := forEach step evs.
End Hook.


(** ** The earlier variant of the hook

    The repository carries a second, older [useWebRTC]: no connection-state
    map, no [isInitialized] flag, no look-up before answering an offer, no
    [try]/[catch] around the primitive, and the initiator elected by join
    time.  It is embedded here to compare it with the one above. *)

Module Legacy.
(** [Participant] as the older socket service declares it. *)
Module Participant.
Record t := {
  id : option string;
  userId : string;
  socketId : string;
  username : string;
  firstName : string;
  lastName : string;
  role : string;
  joinedAt : string;
  audioEnabled : bool;
  videoEnabled : bool;
  screenSharing : bool;
  handRaised : bool
}.
End Participant.

Module PeerConnection.
Record t := {
  peerId : string;
  peer : Peer.t;
  stream : option MediaStream.t;
  userId : string;
  username : string
}.

Definition withStream (remote : MediaStream.t) (p : t) : t :=
  {| peerId := peerId p; peer := peer p; stream := Some remote;
     userId := userId p; username := username p |}.
End PeerConnection.

Record State := {
  peersRef : list PeerConnection.t;
  peers : list PeerConnection.t;
  isInitiator : bool;
  fresh : nat
}.

Definition initialState : State :=
  {| peersRef := []; peers := []; isInitiator := false; fresh := 0 |}.

Definition set_peersRef (f : list PeerConnection.t -> list PeerConnection.t) (s : State) : State :=
  {| peersRef := f (peersRef s); peers := peers s;
     isInitiator := isInitiator s; fresh := fresh s |}.

Definition setPeers (f : list PeerConnection.t -> list PeerConnection.t) (s : State) : State :=
  {| peersRef := peersRef s; peers := f (peers s);
     isInitiator := isInitiator s; fresh := fresh s |}.

Definition setIsInitiator (b : bool) (s : State) : State :=
  {| peersRef := peersRef s; peers := peers s;
     isInitiator := b; fresh := fresh s |}.

Definition bump_fresh (s : State) : State :=
  {| peersRef := peersRef s; peers := peers s;
     isInitiator := isInitiator s; fresh := S (fresh s) |}.

Definition findPeer (uid : string) (l : list PeerConnection.t) : option PeerConnection.t :=
  List.find (fun p => String.eqb (PeerConnection.userId p) uid) l.

Definition withoutPeer (uid : string) (l : list PeerConnection.t) : list PeerConnection.t :=
  List.filter (fun p => negb (String.eqb (PeerConnection.userId p) uid)) l.

Section Hook.
Variable userId : string.
Variable signalThrows : Peer.t -> option Signal.t -> bool.
Variable destroyThrows : Peer.t -> bool.
(** [participants.sort((a, b) => a.joinedAt.localeCompare(b.joinedAt))] *)
Variable sortByJoinedAt : list Participant.t -> list Participant.t.

Definition newPeer (initiator : bool) (stream : MediaStream.t) (ls : Listeners)
    : M State Peer.t :=
  s ← get;
  let p := {| Peer.handle := fresh s; Peer.initiator := initiator;
              Peer.trickle := false; Peer.stream := stream;
              Peer.iceServers := iceServers; Peer.listeners := ls |} in
  modify bump_fresh ;;
  emit (NewPeer p) ;;
  mret p.

Definition signal (p : Peer.t) (data : option Signal.t) : M State unit :=
  emit (PeerSignal p data) ;;
  if signalThrows p data then throw "signal" else mret tt.

Definition destroy (p : Peer.t) : M State unit :=
  emit (PeerDestroy p) ;;
  if destroyThrows p then throw "destroy" else mret tt.

(** [isInitiator] is the value the enclosing render closed over. *)
Definition createPeer (isInitiator : bool) (targetUserId targetUsername targetSocketId : string)
    (stream : MediaStream.t) : M State Peer.t :=
  peer ← newPeer isInitiator stream (ByCreatePeer targetUserId targetUsername);
  let peerConnection :=
    {| PeerConnection.peerId := targetSocketId;
       PeerConnection.peer := peer;
       PeerConnection.stream := None;
       PeerConnection.userId := targetUserId;
       PeerConnection.username := targetUsername |} in
  modify (set_peersRef (fun l => l ++ [peerConnection])) ;;
  modify (setPeers (fun prevPeers => prevPeers ++ [peerConnection])) ;;
  mret peer.

Definition removePeer (uid : string) : M State unit :=
  s ← get;
  match findPeer uid (peersRef s) with
  | Some peerConnection =>
      destroy (PeerConnection.peer peerConnection) ;;
      modify (set_peersRef (withoutPeer uid)) ;;
      modify (setPeers (withoutPeer uid))
  | None => mret tt
  end.

Definition handleOffer (localStream : option MediaStream.t)
    (data : WebRTCSignalData.t) : M State unit :=
  match localStream with
  | None => mret tt
  | Some stream =>
      let fromUserId := WebRTCSignalData.fromUserId data in
      let fromUsername := WebRTCSignalData.fromUsername data in
      peer ← newPeer false stream (ByHandleOffer fromUserId fromUsername);
      signal peer (WebRTCSignalData.offer data) ;;
      let peerConnection :=
        {| PeerConnection.peerId := fromUserId;
           PeerConnection.peer := peer;
           PeerConnection.stream := None;
           PeerConnection.userId := fromUserId;
           PeerConnection.username := fromUsername |} in
      modify (set_peersRef (fun l => l ++ [peerConnection])) ;;
      modify (setPeers (fun prevPeers => prevPeers ++ [peerConnection]))
  end.

Definition handleAnswer (data : WebRTCSignalData.t) : M State unit :=
  s ← get;
  match findPeer (WebRTCSignalData.fromUserId data) (peersRef s) with
  | Some peerConnection =>
      signal (PeerConnection.peer peerConnection) (WebRTCSignalData.answer data)
  | None => mret tt
  end.

Definition handleIceCandidate (data : WebRTCSignalData.t) : M State unit :=
  s ← get;
  match findPeer (WebRTCSignalData.fromUserId data) (peersRef s) with
  | Some peerConnection =>
      signal (PeerConnection.peer peerConnection) (WebRTCSignalData.candidate data)
  | None => mret tt
  end.

Definition initializeWebRTC (participants : list Participant.t)
    (stream : MediaStream.t) : M State unit :=
  s ← get;
  let sortedParticipants := sortByJoinedAt participants in
  let first := match sortedParticipants with
               | p :: _ => String.eqb (Participant.userId p) userId
               | [] => false
               end in
  modify (setIsInitiator first) ;;
  forEach (fun participant =>
             if negb (String.eqb (Participant.userId participant) userId)
             then createPeer (isInitiator s)
                             (Participant.userId participant)
                             (Participant.username participant)
                             (Participant.socketId participant) stream ;; mret tt
             else mret tt)
          sortedParticipants.

Definition handleParticipantJoined (user : Participant.t)
    (stream : MediaStream.t) : M State unit :=
  s ← get;
  if negb (String.eqb (Participant.userId user) userId)
  then createPeer (isInitiator s) (Participant.userId user)
                  (Participant.username user) (Participant.socketId user) stream ;; mret tt
  else mret tt.

Definition cleanup : M State unit :=
  s ← get;
  forEach (fun peerConnection => destroy (PeerConnection.peer peerConnection))
          (peersRef s) ;;
  modify (set_peersRef (fun _ => [])) ;;
  modify (setPeers (fun _ => [])).

(** [peer.on('signal', ...)] of [createPeer]: nothing is sent for a
    payload that is neither an offer nor an answer. *)
Definition createPeer_onSignal (targetUserId : string) (signal : Signal.t) : M State unit :=
  match Signal.type signal with
  | Some ty =>
      if String.eqb ty "offer" then emit (SendOffer targetUserId signal)
      else if String.eqb ty "answer" then emit (SendAnswer targetUserId signal)
      else mret tt
  | None => mret tt
  end.

(** [peer.on('signal', ...)] of [handleOffer]. *)
Definition handleOffer_onSignal (fromUserId : string) (signal : Signal.t) : M State unit :=
  match Signal.type signal with
  | Some ty =>
      if String.eqb ty "answer" then emit (SendAnswer fromUserId signal)
      else mret tt
  | None => mret tt
  end.
End Hook.
End Legacy.

(** ** Observations on states and traces *)

Definition userIds (l : list PeerConnection.t) : list string :=
  List.map PeerConnection.userId l.

(** The sessions registered for [uid]. *)
Definition sessionsFor (uid : string) (l : list PeerConnection.t) : list PeerConnection.t :=
  List.filter (fun p => String.eqb (PeerConnection.userId p) uid) l.

Definition isDestroy (e : Effect) : bool :=
  match e with PeerDestroy _ => true | _ => false end.

Definition isNewPeer (e : Effect) : bool :=
  match e with NewPeer _ => true | _ => false end.

Definition isReplaceTrack (e : Effect) : bool :=
  match e with ReplaceTrack _ _ _ => true | _ => false end.

Definition destroyCalls (tr : list Effect) : nat := length (List.filter isDestroy tr).
Definition newPeerCalls (tr : list Effect) : nat := length (List.filter isNewPeer tr).
Definition replaceCalls (tr : list Effect) : nat := length (List.filter isReplaceTrack tr).

(** [ReplaceTrack] calls in [tr] whose new track is of kind [k]. *)
Definition replaceCallsOfKind (k : string) (tr : list Effect) : nat :=
  length (List.filter (fun e => match e with
                                | ReplaceTrack _ _ t => String.eqb (MediaStreamTrack.kind t) k
                                | _ => false
                                end) tr).

Definition hasKind (k : string) (s : MediaStream.t) : bool :=
  match MediaStream.ofKind k s with [] => false | _ :: _ => true end.

(** How many of the two track kinds a stream carries. *)
Definition kindsPresent (s : MediaStream.t) : nat :=
  (if hasKind "video" s then 1 else 0) + (if hasKind "audio" s then 1 else 0).

(** Whether the connection under [p] holds a sender for kind [k]. *)
Definition hasSender (_pc : Peer.t -> option RTCPeerConnection.t) (k : string) (p : Peer.t) : bool :=
  match _pc p with
  | Some rtc =>
      match List.find (RTCRtpSender.carries k) (RTCPeerConnection.getSenders rtc) with
      | Some _ => true
      | None => false
      end
  | None => false
  end.



(** The React state [peers] mirrors the registry. *)
Definition mirrored (s : State) : Prop := peers s = peersRef s.

(** No two registered sessions share a [userId]. *)
Definition unique (s : State) : Prop := NoDup (userIds (peersRef s)).

Definition isInitialize (ev : Event) : bool :=
  match ev with Initialize _ _ => true | _ => false end.

(** The reading of the track-replacement scenario that asks for one
    call per kind the new stream carries, whatever the session holds. *)
Definition oneReplacePerKindPresent (_pc : Peer.t -> option RTCPeerConnection.t)
    (newStream : MediaStream.t) (s : State) : Prop :=
  ∀ pc, pc ∈ peersRef s →
    replaceCalls (trace (updateLocalStreamFor _pc newStream pc s)) = kindsPresent newStream.

(** ** Expected sessions

    The values the two creation paths are expected to build, written
    once so that statements can name them. *)

Definition responderPeer (n : nat) (stream : MediaStream.t) (data : WebRTCSignalData.t) : Peer.t :=
  {| Peer.handle := n; Peer.initiator := false; Peer.trickle := false;
     Peer.stream := stream; Peer.iceServers := iceServers;
     Peer.listeners := ByHandleOffer (WebRTCSignalData.fromUserId data)
                                     (WebRTCSignalData.fromUsername data) |}.

Definition responderSession (n : nat) (stream : MediaStream.t) (data : WebRTCSignalData.t)
    : PeerConnection.t :=
  {| PeerConnection.peerId := WebRTCSignalData.fromUserId data;
     PeerConnection.peer := responderPeer n stream data;
     PeerConnection.stream := None;
     PeerConnection.userId := WebRTCSignalData.fromUserId data;
     PeerConnection.username := WebRTCSignalData.fromUsername data;
     PeerConnection.firstName := Some (WebRTCSignalData.fromUsername data);
     PeerConnection.lastName := Some "";
     PeerConnection.role := Some "attendee";
     PeerConnection.audioEnabled := None;
     PeerConnection.videoEnabled := None;
     PeerConnection.screenSharing := None |}.

Definition createdPeer (n : nat) (stream : MediaStream.t) (initiator : bool)
    (targetUserId targetUsername : string) : Peer.t :=
  {| Peer.handle := n; Peer.initiator := initiator; Peer.trickle := false;
     Peer.stream := stream; Peer.iceServers := iceServers;
     Peer.listeners := ByCreatePeer targetUserId targetUsername |}.

Definition createdSession (n : nat) (stream : MediaStream.t) (initiator : bool)
    (targetUserId targetUsername : string) (u : Participant.t) : PeerConnection.t :=
  {| PeerConnection.peerId := targetUserId;
     PeerConnection.peer := createdPeer n stream initiator targetUserId targetUsername;
     PeerConnection.stream := None;
     PeerConnection.userId := targetUserId;
     PeerConnection.username := targetUsername;
     PeerConnection.firstName := Some (Participant.firstName u);
     PeerConnection.lastName := Some (Participant.lastName u);
     PeerConnection.role := Some (Participant.role u);
     PeerConnection.audioEnabled := Participant.audioEnabled u;
     PeerConnection.videoEnabled := Participant.videoEnabled u;
     PeerConnection.screenSharing := Participant.screenSharing u |}.

(** The state after one session has been pushed: registry, React state,
    state map and the identity counter. *)
Definition register (pc : PeerConnection.t) (s : State) : State :=
  {| peersRef := peersRef s ++ [pc]; peers := peers s ++ [pc];
     connectionStates := <[PeerConnection.userId pc := "connecting"]> (connectionStates s);
     isInitialized := isInitialized s; fresh := S (fresh s) |}.

Definition registerAll (l : list PeerConnection.t) (s : State) : State :=
  fold_left (fun s pc => register pc s) l s.

(** The members [initializeWebRTC] connects to. *)
Definition remoteMembers (userId : string) (participants : list Participant.t) : list Participant.t :=
  List.filter (fun p => negb (String.eqb (Participant.userId p) userId)) participants.

(** The sessions it builds for them, identities counted from [n]. *)
Fixpoint initiatorSessions (n : nat) (stream : MediaStream.t) (members : list Participant.t)
    : list PeerConnection.t :=
  match members with
  | [] => []
  | u :: rest =>
      createdSession n stream true (Participant.userId u) (Participant.username u) u
        :: initiatorSessions (S n) stream rest
  end.

(** A session that carries the display fields and media flags of the
    participant it was built from. *)
Definition copiesDisplayFields (pc : PeerConnection.t) (u : Participant.t) : Prop :=
  PeerConnection.userId pc = Participant.userId u ∧
  PeerConnection.username pc = Participant.username u ∧
  PeerConnection.firstName pc = Some (Participant.firstName u) ∧
  PeerConnection.lastName pc = Some (Participant.lastName u) ∧
  PeerConnection.role pc = Some (Participant.role u) ∧
  PeerConnection.audioEnabled pc = Participant.audioEnabled u ∧
  PeerConnection.videoEnabled pc = Participant.videoEnabled u ∧
  PeerConnection.screenSharing pc = Participant.screenSharing u.

(** The outbound dispatch rule in the words of the specification: offers
    on the offer channel, answers on the answer channel, anything else
    on the candidate channel. *)
Definition channelFor (signal : Signal.t) : string :=
  match Signal.type signal with
  | Some ty => if String.eqb ty "offer" then "offer"
               else if String.eqb ty "answer" then "answer"
               else "ice-candidate"
  | None => "ice-candidate"
  end.

(** ** Sample rooms *)

Module Scenario.
Definition track (k l : string) : MediaStreamTrack.t :=
  {| MediaStreamTrack.kind := k; MediaStreamTrack.label := l |}.

Definition camera : MediaStream.t :=
  {| MediaStream.tracks := [track "video" "cam"; track "audio" "mic"] |}.
Definition microphone : MediaStream.t :=
  {| MediaStream.tracks := [track "audio" "mic"] |}.
Definition screen : MediaStream.t :=
  {| MediaStream.tracks := [track "video" "screen"] |}.

Definition participant (uid uname first last role : string) : Participant.t :=
  {| Participant.userId := uid; Participant.id := None;
     Participant.socketId := None; Participant.username := uname;
     Participant.firstName := first; Participant.lastName := last;
     Participant.role := role; Participant.joinedAt := None;
     Participant.lastSeen := None;
     Participant.audioEnabled := Some true; Participant.videoEnabled := Some true;
     Participant.screenSharing := Some false; Participant.handRaised := Some false |}.

Definition alice : Participant.t := participant "u-alice" "alice" "Alice" "Liddell" "host".
Definition carol : Participant.t := participant "u-carol" "carol" "Carol" "Shaw" "host".
(** The local identity. *)
Definition bob : string := "u-bob".

Definition sdp (ty : string) : Signal.t :=
  {| Signal.type := Some ty; Signal.body := "v=0" |}.
Definition iceCandidate : Signal.t :=
  {| Signal.type := None; Signal.body := "candidate:1" |}.

Definition from (uid uname : string) (o a c : option Signal.t) : WebRTCSignalData.t :=
  {| WebRTCSignalData.fromUserId := uid; WebRTCSignalData.fromUsername := uname;
     WebRTCSignalData.fromFirstName := None; WebRTCSignalData.fromLastName := None;
     WebRTCSignalData.offer := o; WebRTCSignalData.answer := a;
     WebRTCSignalData.candidate := c |}.

Definition offerFromCarol : WebRTCSignalData.t :=
  from "u-carol" "carol" (Some (sdp "offer")) None None.
Definition answerFromCarol : WebRTCSignalData.t :=
  from "u-carol" "carol" None (Some (sdp "answer")) None.
Definition candidateFromCarol : WebRTCSignalData.t :=
  from "u-carol" "carol" None None (Some iceCandidate).

(** A primitive that accepts every payload and never fails to close. *)
Definition accepts : Peer.t -> option Signal.t -> bool := fun _ _ => false.
Definition rejects : Peer.t -> option Signal.t -> bool := fun _ _ => true.
Definition closes : Peer.t -> bool := fun _ => false.

(** A connection with one sender per track of the stream the primitive
    was constructed with. *)
Definition sendersOfStream : Peer.t -> option RTCPeerConnection.t :=
  fun p => Some {| RTCPeerConnection.getSenders :=
                     List.map (fun tr => {| RTCRtpSender.track := Some tr |})
                              (MediaStream.tracks (Peer.stream p)) |}.

(** Bob's hook with a well-behaved primitive. *)
Definition bobRuns (evs : list Event) (s : State) : Result State unit :=
  run bob accepts closes sendersOfStream evs s.
End Scenario.

(** The same room for the earlier variant. *)
Module LegacyScenario.
Definition alice : Legacy.Participant.t :=
  {| Legacy.Participant.id := None; Legacy.Participant.userId := "u-alice";
     Legacy.Participant.socketId := "sock-alice"; Legacy.Participant.username := "alice";
     Legacy.Participant.firstName := "Alice"; Legacy.Participant.lastName := "Liddell";
     Legacy.Participant.role := "host";
     Legacy.Participant.joinedAt := "2024-05-01T10:00:00.000Z";
     Legacy.Participant.audioEnabled := true; Legacy.Participant.videoEnabled := true;
     Legacy.Participant.screenSharing := false; Legacy.Participant.handRaised := false |}.

(** Sorting a list of one participant. *)
Definition sorted : list Legacy.Participant.t -> list Legacy.Participant.t := fun l => l.

Definition legacyUserIds (l : list Legacy.PeerConnection.t) : list string :=
  List.map Legacy.PeerConnection.userId l.
End LegacyScenario.

(** ** More of the hook *)

(** The argument of [updatePeerStates]: a [userId] and any other keys.
    The keys that name a field of [PeerConnection] are kept, each either
    absent or present with its value (an optional field may be present
    and [undefined]); other keys end up as properties nothing reads. *)
Module ParticipantUpdates.
Record t := {
  userId : string;
  peerId : option string;
  peer : option Peer.t;
  stream : option (option MediaStream.t);
  username : option string;
  firstName : option (option string);
  lastName : option (option string);
  role : option (option string);
  audioEnabled : option (option bool);
  videoEnabled : option (option bool);
  screenSharing : option (option bool)
}.

(** [{ ...peer, ...participantUpdates }] *)
Definition merge (u : t) (p : PeerConnection.t) : PeerConnection.t :=
  {| PeerConnection.peerId := default (PeerConnection.peerId p) (peerId u);
     PeerConnection.peer := default (PeerConnection.peer p) (peer u);
     PeerConnection.stream := default (PeerConnection.stream p) (stream u);
     PeerConnection.userId := userId u;
     PeerConnection.username := default (PeerConnection.username p) (username u);
     PeerConnection.firstName := default (PeerConnection.firstName p) (firstName u);
     PeerConnection.lastName := default (PeerConnection.lastName p) (lastName u);
     PeerConnection.role := default (PeerConnection.role p) (role u);
     PeerConnection.audioEnabled := default (PeerConnection.audioEnabled p) (audioEnabled u);
     PeerConnection.videoEnabled := default (PeerConnection.videoEnabled p) (videoEnabled u);
     PeerConnection.screenSharing := default (PeerConnection.screenSharing p) (screenSharing u) |}.
End ParticipantUpdates.

(** [.map(peer => peer.userId === participantUpdates.userId
            ? { ...peer, ...participantUpdates } : peer)] *)
Definition applyUpdates (u : ParticipantUpdates.t) (l : list PeerConnection.t)
    : list PeerConnection.t :=
  List.map (fun p => if String.eqb (PeerConnection.userId p) (ParticipantUpdates.userId u)
                     then ParticipantUpdates.merge u p else p) l.

(** As in the [stream] listener, the updater of [setPeers] overwrites
    [peersRef.current] with what it computed from the React state. *)
Definition updatePeerStates (participantUpdates : ParticipantUpdates.t) : M State unit :=
  s ← get;
  let updatedPeers := applyUpdates participantUpdates (peers s) in
  modify (set_peersRef (fun _ => updatedPeers)) ;;
  modify (setPeers (fun _ => updatedPeers)).

(** The effect that subscribes to the signaling channels runs once per
    identity of [handleOffer], that is once per [localStream] the hook is
    rendered with, and each run registers three new closures; the
    function it returns removes none.  What is subscribed is therefore
    the list of the [localStream]s of all runs so far, oldest first. *)
Definition subscribe (localStream : option MediaStream.t)
    (subscribed : list (option MediaStream.t)) : list (option MediaStream.t) :=
  subscribed ++ [localStream].

Definition unsubscribe (subscribed : list (option MediaStream.t))
    : list (option MediaStream.t) :=
  subscribed.

Section Delivery.
Variable userId : string.
Variable signalThrows : Peer.t -> option Signal.t -> bool.
Variable destroyThrows : Peer.t -> bool.
Variable _pc : Peer.t -> option RTCPeerConnection.t.

(** One offer, answer or candidate arriving from the relay: the socket
    service calls every subscribed closure in turn, each under its own
    [try]/[catch]. *)
Definition socketOffer (subscribed : list (option MediaStream.t))
    (data : WebRTCSignalData.t) : M State unit :=
  run userId signalThrows destroyThrows _pc
      (List.map (fun localStream => InboundOffer localStream data) subscribed).

Definition socketAnswer (subscribed : list (option MediaStream.t))
    (data : WebRTCSignalData.t) : M State unit :=
  run userId signalThrows destroyThrows _pc
      (List.map (fun _ => InboundAnswer data) subscribed).

Definition socketIceCandidate (subscribed : list (option MediaStream.t))
    (data : WebRTCSignalData.t) : M State unit :=
  run userId signalThrows destroyThrows _pc
      (List.map (fun _ => InboundCandidate data) subscribed).
End Delivery.

(** ** The handler registry of the socket service

    [eventHandlers], the methods that maintain it, [emit], and the two
    places where the service reacts to its socket: the [connect] listener
    (which resets the attempt counter and runs [setupEventListeners]
    again) and the [reconnect_error] listener.  A handler is known by its
    identity; whether it throws is a parameter.  Handlers are taken not
    to register or remove handlers while they run. *)
Module Service.
Record t := {
  (** how many times [setupEventListeners] has run on the socket *)
  forwarders : nat;
  eventHandlers : gmap string (list nat);
  reconnectAttempts : nat
}.

Definition maxReconnectAttempts : nat := 5.

(** What the service does that can be seen from outside. *)
Inductive Out :=
| Called (event : string) (handler : nat) (data : string)
| Logged (msg : string).

(** [this.eventHandlers.get(event) || []] *)
Definition handlersFor (event : string) (s : t) : list nat :=
  default [] (eventHandlers s !! event).

Definition addEventListener (event : string) (handler : nat) (s : t) : t :=
  {| forwarders := forwarders s;
     eventHandlers := <[event := handlersFor event s ++ [handler]]> (eventHandlers s);
     reconnectAttempts := reconnectAttempts s |}.

(** [indexOf] and [splice(index, 1)]: the first occurrence goes. *)
Fixpoint removeFirst (handler : nat) (handlers : list nat) : list nat :=
  match handlers with
  | [] => []
  | h :: rest => if Nat.eqb h handler then rest else h :: removeFirst handler rest
  end.

Definition removeEventListener (event : string) (handler : nat) (s : t) : t :=
  match eventHandlers s !! event with
  | Some handlers =>
      {| forwarders := forwarders s;
         eventHandlers := <[event := removeFirst handler handlers]> (eventHandlers s);
         reconnectAttempts := reconnectAttempts s |}
  | None => s
  end.

(** [if (event) delete(event) else clear()]: the empty string is falsy. *)
Definition clearEventHandlers (event : option string) (s : t) : t :=
  {| forwarders := forwarders s;
     eventHandlers :=
       match event with
       | Some e => if String.eqb e "" then ∅ else delete e (eventHandlers s)
       | None => ∅
       end;
     reconnectAttempts := reconnectAttempts s |}.

Section Emit.
Variable throws : nat -> bool.

Definition call (event : string) (data : string) (handler : nat) : list Out :=
  Called event handler data
    :: if throws handler then [Logged "Error in event handler"] else [].

Definition emit (event : string) (data : string) (s : t) : list Out :=
  flat_map (call event data) (handlersFor event s).

(** The events [setupEventListeners] forwards to [emit]. *)
Definition forwarded : list string :=
  ["room-joined"; "participant-joined"; "participant-left";
   "new-message"; "chat-history";
   "participant-audio-changed"; "participant-video-changed";
   "screen-share-started"; "screen-share-stopped";
   "new-reaction"; "hand-raised"; "hand-lowered";
   "force-mute"; "removed-from-room";
   "offer"; "answer"; "ice-candidate"].

(** What the socket tells the service: one constructor for each listener
    that [connect] registers on the socket, and [Inbound] for an event
    that arrives under a name, which the socket hands to the listeners
    registered for that name. *)
Inductive SocketEvent :=
| Connect
| ConnectError
| Disconnect (reason : string)
| Reconnect (attemptNumber : string)
| ReconnectError
| SocketError (error : string)
| Inbound (event : string) (data : string).

(** One forwarder of [event]: [force-mute] is passed on with an empty
    object, the others with what came in. *)
Definition forward (event data : string) (s : t) : list Out :=
  emit event (if String.eqb event "force-mute" then "{}" else data) s.

(** The six listeners of [connect]. *)
Definition onConnect (s : t) : t * list Out :=
  ({| forwarders := S (forwarders s); eventHandlers := eventHandlers s;
      reconnectAttempts := 0 |}, []).

Definition onConnectError (s : t) : t * list Out :=
  (s, [Logged "Socket connection error:"]).

Definition onDisconnect (reason : string) (s : t) : t * list Out :=
  (s, emit "disconnect" reason s).

Definition onReconnect (attemptNumber : string) (s : t) : t * list Out :=
  (s, emit "reconnect" attemptNumber s).

Definition onReconnectError (s : t) : t * list Out :=
  let s' := {| forwarders := forwarders s; eventHandlers := eventHandlers s;
               reconnectAttempts := S (reconnectAttempts s) |} in
  (s', Logged "Socket reconnection error:"
         :: if Nat.leb maxReconnectAttempts (reconnectAttempts s')
            then emit "reconnect_failed" "error" s' else []).

Definition onError (error : string) (s : t) : t * list Out :=
  (s, Logged "Socket error:" :: emit "error" error s).


(** The forwarders of [setupEventListeners]: one per [connect] event so
    far for each forwarded name, none for any other name. *)
Definition onForwarded (event data : string) (s : t) : t * list Out :=
  (s, if existsb (String.eqb event) forwarded
      then List.concat (List.repeat (forward event data s) (forwarders s))
      else []).

(** An event that arrives under a name goes to the listeners registered
    for that name: those of [connect] for its six names, the forwarders
    for the forwarded names, and nobody for a name without a listener. *)
Definition onSocket (ev : SocketEvent) (s : t) : t * list Out :=
  match ev with
  | Connect => onConnect s
  | ConnectError => onConnectError s
  | Disconnect reason => onDisconnect reason s
  | Reconnect attemptNumber => onReconnect attemptNumber s
  | ReconnectError => onReconnectError s
  | SocketError error => onError error s
  | Inbound event data =>
      if String.eqb event "connect" then onConnect s
      else if String.eqb event "connect_error" then onConnectError s
      else if String.eqb event "disconnect" then onDisconnect data s
      else if String.eqb event "reconnect" then onReconnect data s
      else if String.eqb event "reconnect_error" then onReconnectError s
      else if String.eqb event "error" then onError data s
      else onForwarded event data s
  end.

Fixpoint onSockets (evs : list SocketEvent) (s : t) : t * list Out :=
  match evs with
  | [] => (s, [])
  | ev :: rest =>
      let '(s1, out1) := onSocket ev s in
      let '(s2, out2) := onSockets rest s1 in
      (s2, out1 ++ out2)
  end.
End Emit.

(** The handlers called, in order. *)
Definition calls (out : list Out) : list nat :=
  flat_map (fun o => match o with Called _ h _ => [h] | Logged _ => [] end) out.

(** How often an event name was delivered to a handler. *)
Definition deliveries (event : string) (out : list Out) : nat :=
  length (List.filter (fun o => match o with
                                | Called e _ _ => String.eqb e event
                                | Logged _ => false
                                end) out).
End Service.

(** ** The room page, as far as it drives the hook

    The participant list the page keeps in React state, the handlers that
    maintain it from relay events, and the effect that calls
    [initializeWebRTC]. *)
Module RoomPage.
(** JavaScript truthiness of a string and of a possibly absent one. *)
Definition truthy (s : string) : bool := negb (String.eqb s "").

Definition truthyOpt (o : option string) : bool :=
  match o with Some s => truthy s | None => false end.

(** [participant.userId || participant.id] as a condition. *)
Definition identified (p : Participant.t) : bool :=
  truthy (Participant.userId p) || truthyOpt (Participant.id p).

(** [{ ...participant, userId, id }] *)
Definition withIdentity (userId : string) (id : option string) (p : Participant.t)
    : Participant.t :=
  {| Participant.userId := userId; Participant.id := id;
     Participant.socketId := Participant.socketId p;
     Participant.username := Participant.username p;
     Participant.firstName := Participant.firstName p;
     Participant.lastName := Participant.lastName p;
     Participant.role := Participant.role p;
     Participant.joinedAt := Participant.joinedAt p;
     Participant.lastSeen := Participant.lastSeen p;
     Participant.audioEnabled := Participant.audioEnabled p;
     Participant.videoEnabled := Participant.videoEnabled p;
     Participant.screenSharing := Participant.screenSharing p;
     Participant.handRaised := Participant.handRaised p |}.

(** [userId: participant.userId || participant.id!] and
    [id: participant.id || participant.userId!].  It is only applied to
    identified participants, for which the first is a non-empty string. *)
Definition normalize (p : Participant.t) : Participant.t :=
  withIdentity
    (if truthy (Participant.userId p) then Participant.userId p
     else default "" (Participant.id p))
    (if truthyOpt (Participant.id p) then Participant.id p
     else Some (Participant.userId p))
    p.


Definition hasUserId (uid : string) (p : Participant.t) : bool :=
  String.eqb (Participant.userId p) uid.

(** The [participant-joined] listener.  The call to the hook's
    [handleParticipantJoined] it makes when there is a local stream does
    nothing. *)
Definition onParticipantJoined (user : option Participant.t) (prev : list Participant.t)
    : list Participant.t :=
  match user with
  | Some u =>
      if identified u then
        let normalizedParticipant := normalize u in
        if existsb (hasUserId (Participant.userId normalizedParticipant)) prev
        then prev
        else prev ++ [normalizedParticipant]
      else prev
  | None => prev
  end.

(** [p.userId === data.userId || p.id === data.userId] *)
Definition named (uid : string) (p : Participant.t) : bool :=
  String.eqb (Participant.userId p) uid ||
  match Participant.id p with Some i => String.eqb i uid | None => false end.

(** The [participant-left] listener: the list without the participant,
    and the hook told to drop the session. *)
Definition onParticipantLeft (destroyThrows : Peer.t -> bool) (uid : string)
    (prev : list Participant.t) : M State (list Participant.t) :=
  if truthy uid then
    let filteredList := List.filter (fun p => negb (named uid p)) prev in
    handleParticipantLeft destroyThrows uid ;;
    mret filteredList
  else mret prev.

Definition withAudio (enabled : option bool) (p : Participant.t) : Participant.t :=
  {| Participant.userId := Participant.userId p; Participant.id := Participant.id p;
     Participant.socketId := Participant.socketId p;
     Participant.username := Participant.username p;
     Participant.firstName := Participant.firstName p;
     Participant.lastName := Participant.lastName p;
     Participant.role := Participant.role p;
     Participant.joinedAt := Participant.joinedAt p;
     Participant.lastSeen := Participant.lastSeen p;
     Participant.audioEnabled := enabled;
     Participant.videoEnabled := Participant.videoEnabled p;
     Participant.screenSharing := Participant.screenSharing p;
     Participant.handRaised := Participant.handRaised p |}.

Definition withVideo (enabled : option bool) (p : Participant.t) : Participant.t :=
  {| Participant.userId := Participant.userId p; Participant.id := Participant.id p;
     Participant.socketId := Participant.socketId p;
     Participant.username := Participant.username p;
     Participant.firstName := Participant.firstName p;
     Participant.lastName := Participant.lastName p;
     Participant.role := Participant.role p;
     Participant.joinedAt := Participant.joinedAt p;
     Participant.lastSeen := Participant.lastSeen p;
     Participant.audioEnabled := Participant.audioEnabled p;
     Participant.videoEnabled := enabled;
     Participant.screenSharing := Participant.screenSharing p;
     Participant.handRaised := Participant.handRaised p |}.

Definition withScreenSharing (sharing : bool) (p : Participant.t) : Participant.t :=
  {| Participant.userId := Participant.userId p; Participant.id := Participant.id p;
     Participant.socketId := Participant.socketId p;
     Participant.username := Participant.username p;
     Participant.firstName := Participant.firstName p;
     Participant.lastName := Participant.lastName p;
     Participant.role := Participant.role p;
     Participant.joinedAt := Participant.joinedAt p;
     Participant.lastSeen := Participant.lastSeen p;
     Participant.audioEnabled := Participant.audioEnabled p;
     Participant.videoEnabled := Participant.videoEnabled p;
     Participant.screenSharing := Some sharing;
     Participant.handRaised := Participant.handRaised p |}.

(** The four media listeners share one shape. *)
Definition updateNamed (uid : string) (f : Participant.t -> Participant.t)
    (prev : list Participant.t) : list Participant.t :=
  List.map (fun p => if named uid p then f p else p) prev.

Definition onParticipantAudioChanged (uid : string) (audioEnabled : option bool) :=
  updateNamed uid (withAudio audioEnabled).
Definition onParticipantVideoChanged (uid : string) (videoEnabled : option bool) :=
  updateNamed uid (withVideo videoEnabled).
Definition onScreenShareStarted (uid : string) := updateNamed uid (withScreenSharing true).
Definition onScreenShareStopped (uid : string) := updateNamed uid (withScreenSharing false).

(** [p.userId !== user?.id] *)
Definition notMe (me : option string) (p : Participant.t) : bool :=
  match me with
  | Some m => negb (String.eqb (Participant.userId p) m)
  | None => true
  end.

(** The effect "Initialize WebRTC after getting participants and local
    stream".  The hook was called with [user?.id || ''] as local
    identity. *)
Definition initializeEffect (joined : bool) (localStream : option MediaStream.t)
    (participants : list Participant.t) (me : option string) : M State unit :=
  match localStream with
  | Some stream =>
      if joined && Nat.ltb 1 (length participants) then
        let otherParticipants := List.filter (notMe me) participants in
        if Nat.ltb 0 (length otherParticipants)
        then initializeWebRTC (match me with
                               | Some m => if truthy m then m else ""
                               | None => ""
                               end)
                              otherParticipants (Some stream)
        else mret tt
      else mret tt
  | None => mret tt
  end.
End RoomPage.

(** ** More observations *)

(** Every registered user has an entry in the connection-state map. *)
Definition covered (s : State) : Prop :=
  ∀ uid, uid ∈ userIds (peersRef s) → is_Some (connectionStates s !! uid).


(** The primitives [destroy] was called on, in order. *)
Definition destroyedPeers (tr : list Effect) : list Peer.t :=
  flat_map (fun e => match e with PeerDestroy p => [p] | _ => [] end) tr.

(** The primitives constructed, in order. *)
Definition constructedPeers (tr : list Effect) : list Peer.t :=
  flat_map (fun e => match e with NewPeer p => [p] | _ => [] end) tr.

(** The payloads handed to [signal] of primitive [p]. *)
Definition signalledTo (p : Peer.t) (tr : list Effect) : list (option Signal.t) :=
  flat_map (fun e => match e with
                     | PeerSignal q data => if Nat.eqb (Peer.handle q) (Peer.handle p)
                                            then [data] else []
                     | _ => []
                     end) tr.

(** The user a primitive's listeners were built for. *)
Definition remoteUser (p : Peer.t) : string :=
  match Peer.listeners p with
  | ByCreatePeer uid _ => uid
  | ByHandleOffer uid _ => uid
  end.

(** A series of registrations with the socket service, oldest first. *)
Definition registerHandlers (registrations : list (string * nat)) (s : Service.t) : Service.t :=
  fold_left (fun s r => Service.addEventListener (fst r) (snd r) s) registrations s.

(** The handlers a series of registrations adds for [event]. *)
Definition registeredFor (event : string) (registrations : list (string * nat)) : list nat :=
  List.map snd (List.filter (fun r => String.eqb (fst r) event) registrations).

(** An offer event that arrives without its [offer] field, which the
    type of the event allows ([offer?: any]), and a primitive whose
    [signal] throws when it is handed nothing and accepts every payload
    that is there. *)
Module MalformedOffer.
Definition fromCarol : WebRTCSignalData.t :=
  Scenario.from "u-carol" "carol" None None None.

Definition throwsOnMissing : Peer.t -> option Signal.t -> bool :=
  fun _ data => match data with None => true | Some _ => false end.
End MalformedOffer.

(** * Properties *)

(** ** Running the monad *)

Ltac run_monad :=
  cbv [mbind M_bind bind mret M_ret ret get modify emit throw tryCatch consoleError
       completion final trace].

Lemma mbind_run {St A B} (m : M St A) (k : A → M St B) (s : St) :
  (m ≫= k) s =
  match completion (m s) with
  | Normal a =>
      mkResult (completion (k a (final (m s)))) (final (k a (final (m s))))
               (trace (m s) ++ trace (k a (final (m s))))
  | Throw e => mkResult (Throw e) (final (m s)) (trace (m s))
  end.
Proof. reflexivity. Qed.

Lemma tryCatch_run {St A} (m : M St A) (h : string → M St A) (s : St) :
  tryCatch m h s =
  match completion (m s) with
  | Normal a => m s
  | Throw e =>
      mkResult (completion (h e (final (m s)))) (final (h e (final (m s))))
               (trace (m s) ++ trace (h e (final (m s))))
  end.
Proof. reflexivity. Qed.

(** ** Look-up and removal in the registry *)

Lemma findPeer_Some uid l pc :
  findPeer uid l = Some pc → pc ∈ l ∧ PeerConnection.userId pc = uid.
Proof.
  unfold findPeer. intros H. apply find_some in H as [Hin Heq].
  split; [by apply list_elem_of_In | by apply String.eqb_eq].
Qed.

Lemma findPeer_None uid l :
  findPeer uid l = None ↔ uid ∉ userIds l.
Proof.
  unfold findPeer, userIds. induction l as [|p l IH]; simpl.
  - split; [intros _ H; inversion H | done].
  - destruct (String.eqb_spec (PeerConnection.userId p) uid) as [Heq|Hne].
    + split; [done | intros H; exfalso; apply H; rewrite Heq; left].
    + rewrite IH. rewrite not_elem_of_cons. split; [intros; split; congruence | tauto].
Qed.

Lemma findPeer_is_Some uid l :
  uid ∈ userIds l → ∃ pc, findPeer uid l = Some pc.
Proof.
  intros Hin. destruct (findPeer uid l) as [pc|] eqn:E; [by eexists|].
  by apply findPeer_None in E.
Qed.

Lemma userIds_app l1 l2 : userIds (l1 ++ l2) = userIds l1 ++ userIds l2.
Proof. unfold userIds. apply List.map_app. Qed.

Lemma userIds_withoutPeer uid l : uid ∉ userIds (withoutPeer uid l).
Proof.
  unfold userIds, withoutPeer. induction l as [|p l IH]; simpl.
  - intros H; inversion H.
  - destruct (String.eqb_spec (PeerConnection.userId p) uid) as [Heq|Hne]; simpl; [done|].
    rewrite not_elem_of_cons. split; [congruence | done].
Qed.

Lemma withoutPeer_sublist uid l : userIds (withoutPeer uid l) `sublist_of` userIds l.
Proof.
  unfold userIds, withoutPeer. induction l as [|p l IH]; simpl; [done|].
  destruct (negb _); simpl; [by apply sublist_skip | by apply sublist_cons].
Qed.

Lemma sessionsFor_withoutPeer uid l : sessionsFor uid (withoutPeer uid l) = [].
Proof.
  unfold sessionsFor, withoutPeer. induction l as [|p l IH]; simpl; [done|].
  destruct (String.eqb (PeerConnection.userId p) uid) eqn:E; simpl; [done|].
  by rewrite E.
Qed.

Lemma sessionsFor_absent uid l : uid ∉ userIds l → sessionsFor uid l = [].
Proof.
  unfold sessionsFor, userIds. induction l as [|p l IH]; simpl; [done|].
  rewrite not_elem_of_cons. intros [Hne Hnin].
  destruct (String.eqb_spec (PeerConnection.userId p) uid); [congruence | auto].
Qed.

Lemma userIds_attachStream uid remote l : userIds (attachStream uid remote l) = userIds l.
Proof.
  unfold userIds, attachStream. rewrite List.map_map. apply List.map_ext.
  intros p. by destruct (String.eqb _ _).
Qed.

(** ** The pushes of [createPeer] and [initializeWebRTC] *)

Lemma peersRef_registerAll l s : peersRef (registerAll l s) = peersRef s ++ l.
Proof.
  unfold registerAll. revert s. induction l as [|pc l IH]; intros s; simpl.
  - by rewrite app_nil_r.
  - rewrite IH. simpl. by rewrite <- app_assoc.
Qed.

Lemma peers_registerAll l s : peers (registerAll l s) = peers s ++ l.
Proof.
  unfold registerAll. revert s. induction l as [|pc l IH]; intros s; simpl.
  - by rewrite app_nil_r.
  - rewrite IH. simpl. by rewrite <- app_assoc.
Qed.

Lemma isInitialized_registerAll l s : isInitialized (registerAll l s) = isInitialized s.
Proof.
  unfold registerAll. revert s. induction l as [|pc l IH]; intros s; simpl; [done|].
  by rewrite IH.
Qed.

Lemma createPeer_result targetUserId targetUsername u stream initiator s :
  createPeer targetUserId targetUsername u stream initiator s =
  mkResult (Normal (createdPeer (fresh s) stream initiator targetUserId targetUsername))
           (register (createdSession (fresh s) stream initiator targetUserId targetUsername u) s)
           [NewPeer (createdPeer (fresh s) stream initiator targetUserId targetUsername)].
Proof. reflexivity. Qed.

(** The loop of [initializeWebRTC], from any state. *)
Lemma initialize_loop userId stream participants s :
  forEach (fun participant =>
             if negb (String.eqb (Participant.userId participant) userId)
             then createPeer (Participant.userId participant)
                             (Participant.username participant)
                             participant stream true ;; mret tt
             else mret tt)
          participants s =
  let created := initiatorSessions (fresh s) stream (remoteMembers userId participants) in
  mkResult (Normal tt) (registerAll created s)
           (List.map (fun pc => NewPeer (PeerConnection.peer pc)) created).
Proof.
  revert s. induction participants as [|u rest IH]; intros s; [reflexivity|].
  cbn [forEach remoteMembers List.filter].
  unfold mbind, M_bind, bind at 1. fold (remoteMembers userId rest).
  destruct (negb (String.eqb (Participant.userId u) userId)) eqn:E.
  - unfold bind at 1. rewrite createPeer_result. cbn [completion final trace].
    rewrite IH. reflexivity.
  - cbn [mret M_ret ret completion final trace]. rewrite IH. reflexivity.
Qed.

Lemma initializeWebRTC_first userId participants stream s :
  isInitialized s = false →
  initializeWebRTC userId participants (Some stream) s =
  let created := initiatorSessions (fresh s) stream (remoteMembers userId participants) in
  mkResult (Normal tt) (registerAll created (set_isInitialized true s))
           (List.map (fun pc => NewPeer (PeerConnection.peer pc)) created).
Proof.
  intros Hflag. unfold initializeWebRTC.
  rewrite mbind_run. cbn [get completion final trace]. rewrite Hflag.
  rewrite mbind_run. cbn [modify completion final trace].
  rewrite initialize_loop. reflexivity.
Qed.

Lemma initializeWebRTC_again userId participants stream s :
  isInitialized s = true →
  initializeWebRTC userId participants stream s = mkResult (Normal tt) s [].
Proof.
  intros Hflag. unfold initializeWebRTC, mbind, M_bind, bind.
  cbn [get completion final trace]. destruct stream; [rewrite Hflag|]; reflexivity.
Qed.

Lemma initializeWebRTC_sets_flag userId participants stream s :
  isInitialized (final (initializeWebRTC userId participants (Some stream) s)) = true.
Proof.
  destruct (isInitialized s) eqn:Hflag.
  - by rewrite initializeWebRTC_again.
  - rewrite initializeWebRTC_first by done. cbn [final].
    by rewrite isInitialized_registerAll.
Qed.

Lemma userIds_initiatorSessions n stream members :
  userIds (initiatorSessions n stream members) = List.map Participant.userId members.
Proof.
  revert n. induction members as [|u rest IH]; intros n; simpl; [done|].
  f_equal. apply IH.
Qed.

Lemma initiatorSessions_initiate n stream members :
  Forall (fun pc => Peer.initiator (PeerConnection.peer pc) = true)
         (initiatorSessions n stream members).
Proof.
  revert n. induction members as [|u rest IH]; intros n; simpl; constructor; auto.
Qed.

Lemma initiatorSessions_handles n stream members :
  List.map (fun pc => Peer.handle (PeerConnection.peer pc)) (initiatorSessions n stream members)
  = seq n (length members).
Proof.
  revert n. induction members as [|u rest IH]; intros n; simpl; [done|].
  by rewrite IH.
Qed.

Lemma remoteMembers_not_local userId participants :
  userId ∉ List.map Participant.userId (remoteMembers userId participants).
Proof.
  unfold remoteMembers. induction participants as [|u rest IH]; simpl.
  - intros H; inversion H.
  - destruct (String.eqb_spec (Participant.userId u) userId) as [Heq|Hne]; simpl; [done|].
    rewrite not_elem_of_cons. split; [congruence | done].
Qed.

Lemma newPeerCalls_map l :
  newPeerCalls (List.map (fun pc => NewPeer (PeerConnection.peer pc)) l) = length l.
Proof.
  unfold newPeerCalls. induction l as [|pc l IH]; simpl; [done|]. by rewrite IH.
Qed.

(** ** Initialization *)

(** A call without a stream returns before the flag is set: it does not
    count as a first call. *)
Example initialize_without_stream_is_idle :
  initializeWebRTC Scenario.bob [Scenario.alice] None initialState
  = mkResult (Normal tt) initialState [].
Proof. reflexivity. Qed.

(** C3: a second [initialize] without a [cleanup] in between, with any
    member list and any stream argument, is a no-op.  After a first call
    that was given a stream, the second call returns normally, leaves the
    whole state (sessions with their roles, React mirror, connection-state
    map) as the first call left it, and reaches neither the primitive nor
    the relay. *)
Theorem initialize_twice_is_noop (userId : string)
    (participants1 : list Participant.t) (stream1 : MediaStream.t)
    (participants2 : list Participant.t) (stream2 : option MediaStream.t) (s : State) :
  let first := final (initializeWebRTC userId participants1 (Some stream1) s) in
  initializeWebRTC userId participants2 stream2 first = mkResult (Normal tt) first [].
Proof.
  intros first. apply initializeWebRTC_again. apply initializeWebRTC_sets_flag.
Qed.

(** C5: on a hook that is not yet initialized, [initialize(members,
    localStream)] appends to the registry exactly one session per member
    whose [userId] differs from the local identity, in the order of the
    list, each around a primitive of its own constructed as initiator, and
    none for the local identity. *)
Theorem initialize_creates_initiators (userId : string)
    (participants : list Participant.t) (stream : MediaStream.t) (s : State)
    (Hidle : isInitialized s = false) :
  let r := initializeWebRTC userId participants (Some stream) s in
  ∃ created : list PeerConnection.t,
    completion r = Normal tt ∧
    peersRef (final r) = peersRef s ++ created ∧
    userIds created = List.map Participant.userId (remoteMembers userId participants) ∧
    Forall (fun pc => Peer.initiator (PeerConnection.peer pc) = true) created ∧
    NoDup (List.map (fun pc => Peer.handle (PeerConnection.peer pc)) created) ∧
    (userId ∉ userIds created) ∧
    newPeerCalls (trace r) = length created.
Proof.
  intros r. subst r. rewrite initializeWebRTC_first by done.
  exists (initiatorSessions (fresh s) stream (remoteMembers userId participants)).
  cbn [completion final trace]. rewrite peersRef_registerAll.
  repeat split.
  - apply userIds_initiatorSessions.
  - apply initiatorSessions_initiate.
  - rewrite initiatorSessions_handles. apply NoDup_seq.
  - rewrite userIds_initiatorSessions. apply remoteMembers_not_local.
  - apply newPeerCalls_map.
Qed.

(** Scenario A: Bob calls [initialize([Alice], stream)] on a new hook. *)
Lemma initialize_creates_initiators_scenario_A :
  isInitialized initialState = false ∧
  ∃ created : list PeerConnection.t,
    completion (initializeWebRTC Scenario.bob [Scenario.alice] (Some Scenario.camera) initialState)
      = Normal tt ∧
    peersRef (final (initializeWebRTC Scenario.bob [Scenario.alice] (Some Scenario.camera) initialState))
      = peersRef initialState ++ created ∧
    userIds created
      = List.map Participant.userId (remoteMembers Scenario.bob [Scenario.alice]) ∧
    Forall (fun pc => Peer.initiator (PeerConnection.peer pc) = true) created ∧
    NoDup (List.map (fun pc => Peer.handle (PeerConnection.peer pc)) created) ∧
    (Scenario.bob ∉ userIds created) ∧
    newPeerCalls (trace (initializeWebRTC Scenario.bob [Scenario.alice] (Some Scenario.camera) initialState))
      = length created.
Proof.
  split; [reflexivity|].
  apply (initialize_creates_initiators Scenario.bob [Scenario.alice] Scenario.camera initialState).
  reflexivity.
Defined.

Example scenario_A_registry :
  peersRef (final (initializeWebRTC Scenario.bob [Scenario.alice; Scenario.participant "u-bob" "bob" "Bob" "Ross" "attendee"]
                                    (Some Scenario.camera) initialState))
  = [createdSession 0 Scenario.camera true "u-alice" "alice" Scenario.alice].
Proof. reflexivity. Qed.

(** ** Inbound offers *)

Lemma handleOffer_no_media signalThrows data s :
  handleOffer signalThrows None data s =
  mkResult (Normal tt) s [ConsoleError "No local stream available to handle offer"].
Proof. reflexivity. Qed.

Lemma handleOffer_existing signalThrows stream data s pc :
  findPeer (WebRTCSignalData.fromUserId data) (peersRef s) = Some pc →
  handleOffer signalThrows (Some stream) data s = mkResult (Normal tt) s [].
Proof. intros Hfind. unfold handleOffer. run_monad. by rewrite Hfind. Qed.

Lemma handleOffer_accepted signalThrows stream data s :
  findPeer (WebRTCSignalData.fromUserId data) (peersRef s) = None →
  signalThrows (responderPeer (fresh s) stream data) (WebRTCSignalData.offer data) = false →
  handleOffer signalThrows (Some stream) data s =
  mkResult (Normal tt) (register (responderSession (fresh s) stream data) s)
           [NewPeer (responderPeer (fresh s) stream data);
            PeerSignal (responderPeer (fresh s) stream data) (WebRTCSignalData.offer data)].
Proof.
  intros Hfind Hok. unfold handleOffer, newPeer, signal. run_monad.
  rewrite Hfind. fold (responderPeer (fresh s) stream data). by rewrite Hok.
Qed.

(** An offer the primitive refuses: the exception leaves [handleOffer]
    before the session is pushed. *)
Lemma handleOffer_rejected signalThrows stream data s :
  findPeer (WebRTCSignalData.fromUserId data) (peersRef s) = None →
  signalThrows (responderPeer (fresh s) stream data) (WebRTCSignalData.offer data) = true →
  handleOffer signalThrows (Some stream) data s =
  mkResult (Throw "signal") (bump_fresh s)
           [NewPeer (responderPeer (fresh s) stream data);
            PeerSignal (responderPeer (fresh s) stream data) (WebRTCSignalData.offer data)].
Proof.
  intros Hfind Hno. unfold handleOffer, newPeer, signal. run_monad.
  rewrite Hfind. fold (responderPeer (fresh s) stream data). by rewrite Hno.
Qed.

Lemma handleOffer_answer_listener destroyThrows n stream data answer s :
  Signal.type answer = Some "answer" →
  peerEvent destroyThrows (responderPeer n stream data) (OnSignal answer) s =
  mkResult (Normal tt) s [SendAnswer (WebRTCSignalData.fromUserId data) answer].
Proof.
  intros Hty. unfold peerEvent, responderPeer, handleOffer_onSignal. simpl.
  by rewrite Hty.
Qed.

Lemma sessionsFor_register_new pc s :
  PeerConnection.userId pc ∉ userIds (peersRef s) →
  sessionsFor (PeerConnection.userId pc) (peersRef (register pc s)) = [pc].
Proof.
  intros Hnew. unfold sessionsFor. simpl. rewrite List.filter_app.
  fold (sessionsFor (PeerConnection.userId pc) (peersRef s)).
  rewrite sessionsFor_absent by done. simpl. by rewrite String.eqb_refl.
Qed.

(** [handleOffer] case by case, for a primitive that accepts the offer.
    Without local media the handler returns after logging, and with a
    session already registered for the sender it returns at once; in
    both cases the state is untouched and no primitive is constructed.
    Otherwise, with a primitive that accepts the offer, it constructs
    one primitive in responder role, feeds it the offer and registers
    exactly one session for the sender; when that primitive then
    produces its answer, exactly one answer is handed to the relay,
    addressed to the sender. *)
Theorem inbound_offer_contract
    (signalThrows : Peer.t → option Signal.t → bool) (destroyThrows : Peer.t → bool)
    (localStream : option MediaStream.t) (data : WebRTCSignalData.t) (s : State) :
  let from := WebRTCSignalData.fromUserId data in
  let r := handleOffer signalThrows localStream data s in
  (localStream = None →
     completion r = Normal tt ∧ final r = s ∧ newPeerCalls (trace r) = 0) ∧
  (∀ pc, is_Some localStream → findPeer from (peersRef s) = Some pc →
     r = mkResult (Normal tt) s []) ∧
  (∀ stream, localStream = Some stream → findPeer from (peersRef s) = None →
     let p := responderPeer (fresh s) stream data in
     signalThrows p (WebRTCSignalData.offer data) = false →
     ∃ pc,
       completion r = Normal tt ∧
       peersRef (final r) = peersRef s ++ [pc] ∧
       sessionsFor from (peersRef (final r)) = [pc] ∧
       PeerConnection.userId pc = from ∧
       PeerConnection.peer pc = p ∧
       Peer.initiator p = false ∧
       trace r = [NewPeer p; PeerSignal p (WebRTCSignalData.offer data)] ∧
       ∀ answer s',
         Signal.type answer = Some "answer" →
         peerEvent destroyThrows p (OnSignal answer) s' =
         mkResult (Normal tt) s' [SendAnswer from answer] ∧
         SocketService.wire true (SendAnswer from answer)
         = Some (SocketService.Emit "answer" from answer)).
Proof.
  intros from r. subst from r. split; [|split].
  - intros ->. by rewrite handleOffer_no_media.
  - intros pc [stream ->] Hfind. by eapply handleOffer_existing.
  - intros stream -> Hfind p Hok. subst p.
    rewrite handleOffer_accepted by done. cbn [completion final trace].
    exists (responderSession (fresh s) stream data).
    apply findPeer_None in Hfind.
    split; [done|]. split; [done|].
    split; [by apply (sessionsFor_register_new (responderSession (fresh s) stream data))|].
    split; [done|]. split; [done|]. split; [done|]. split; [done|].
    intros answer s' Hty. split; [by apply handleOffer_answer_listener | done].
Qed.

(** Scenario B: Bob, holding local media, receives Carol's offer; a
    repeated offer and an offer without local media are ignored. *)
Lemma inbound_offer_contract_scenario_B :
  (peersRef (final (handleOffer Scenario.accepts (Some Scenario.camera)
                                Scenario.offerFromCarol initialState))
   = [responderSession 0 Scenario.camera Scenario.offerFromCarol]) ∧
  (peerEvent Scenario.closes (responderPeer 0 Scenario.camera Scenario.offerFromCarol)
             (OnSignal (Scenario.sdp "answer")) initialState
   = mkResult (Normal tt) initialState [SendAnswer "u-carol" (Scenario.sdp "answer")]) ∧
  (handleOffer Scenario.accepts (Some Scenario.camera) Scenario.offerFromCarol
               (register (responderSession 0 Scenario.camera Scenario.offerFromCarol) initialState)
   = mkResult (Normal tt)
              (register (responderSession 0 Scenario.camera Scenario.offerFromCarol) initialState) []) ∧
  (final (handleOffer Scenario.accepts None Scenario.offerFromCarol initialState) = initialState).
Proof.
  pose proof (inbound_offer_contract Scenario.accepts Scenario.closes
                (Some Scenario.camera) Scenario.offerFromCarol initialState) as (_ & _ & Hnew).
  pose proof (inbound_offer_contract Scenario.accepts Scenario.closes
                (Some Scenario.camera) Scenario.offerFromCarol
                (register (responderSession 0 Scenario.camera Scenario.offerFromCarol) initialState))
    as (_ & Hdup & _).
  pose proof (inbound_offer_contract Scenario.accepts Scenario.closes
                None Scenario.offerFromCarol initialState) as (Hnone & _ & _).
  destruct (Hnew Scenario.camera eq_refl eq_refl eq_refl)
    as (pc & _ & Hreg & _ & _ & _ & _ & _ & Hanswer).
  split; [|split; [|split]].
  - reflexivity.
  - apply (Hanswer (Scenario.sdp "answer") initialState). reflexivity.
  - apply (Hdup (responderSession 0 Scenario.camera Scenario.offerFromCarol)).
    + exists Scenario.camera. reflexivity.
    + reflexivity.
  - apply Hnone. reflexivity.
Defined.

(** C4: [handleInboundOffer] on an offer the primitive throws on.  Bob
    holds local media and has no session for Carol, so the offer is
    neither of the two ignored cases; the event carries no [offer]
    field.  [handleOffer] constructs the responder primitive and hands it
    the missing payload outside any [try]; the exception leaves the
    handler before the session is pushed.  No session for Carol is
    registered, [peers] and the connection-state map stay empty, the
    primitive is not destroyed, and only the error is logged by the
    caller.  The same primitive given a well-formed offer is registered
    as one responder session, and [handleAnswer] and
    [handleIceCandidate], which wrap the same call in [try]/[catch],
    return normally on an event without payload and leave the state as
    it is. *)
Theorem offer_without_payload_registers_nothing :
  let data := MalformedOffer.fromCarol in
  let throws := MalformedOffer.throwsOnMissing in
  let p := responderPeer 0 Scenario.camera data in
  let r := handleOffer throws (Some Scenario.camera) data initialState in
  let viaSocket :=
    step Scenario.bob throws Scenario.closes Scenario.sendersOfStream
         (InboundOffer (Some Scenario.camera) data) initialState in
  let registered := register (responderSession 0 Scenario.camera Scenario.offerFromCarol)
                             initialState in
  findPeer "u-carol" (peersRef initialState) = None ∧
  completion r = Throw "signal" ∧
  trace r = [NewPeer p; PeerSignal p None] ∧
  Peer.initiator p = false ∧
  destroyedPeers (trace r) = [] ∧
  sessionsFor "u-carol" (peersRef (final r)) = [] ∧
  peers (final r) = [] ∧
  connectionStates (final r) !! "u-carol" = None ∧
  completion viaSocket = Normal tt ∧
  peersRef (final viaSocket) = [] ∧
  trace viaSocket = [NewPeer p; PeerSignal p None; ConsoleError "Error in event handler"] ∧
  final (handleOffer throws (Some Scenario.camera) Scenario.offerFromCarol initialState)
  = registered ∧
  handleAnswer throws data registered
  = mkResult (Normal tt) registered
      [PeerSignal (responderPeer 0 Scenario.camera Scenario.offerFromCarol) None;
       ConsoleError "Error handling answer:"] ∧
  handleIceCandidate throws data registered
  = mkResult (Normal tt) registered
      [PeerSignal (responderPeer 0 Scenario.camera Scenario.offerFromCarol) None;
       ConsoleError "Error handling ICE candidate:"].
Proof.
  cbv zeta. repeat split; reflexivity.
Qed.

(** ** Departures *)

Lemma removePeer_absent destroyThrows uid s :
  findPeer uid (peersRef s) = None →
  removePeer destroyThrows uid s = mkResult (Normal tt) s [].
Proof. intros Hfind. unfold removePeer. run_monad. by rewrite Hfind. Qed.

Lemma removePeer_present destroyThrows uid s pc :
  findPeer uid (peersRef s) = Some pc →
  removePeer destroyThrows uid s =
  mkResult (Normal tt)
           (setConnectionStates (fun prev => delete uid prev)
              (setPeers (withoutPeer uid) (set_peersRef (withoutPeer uid) s)))
           (PeerDestroy (PeerConnection.peer pc)
              :: if destroyThrows (PeerConnection.peer pc)
                 then [ConsoleError "Error destroying peer:"] else []).
Proof.
  intros Hfind. unfold removePeer, destroy. run_monad. rewrite Hfind.
  by destruct (destroyThrows (PeerConnection.peer pc)).
Qed.

(** C6: [handleParticipantLeft(userId)].  With a session registered for
    [userId], the call returns normally, leaves no session for [userId]
    in the registry (the other sessions stay, in order), calls [destroy]
    exactly once, on that session's primitive, and deletes [userId] from
    the connection-state map.  Without one it changes nothing and calls
    nothing. *)
Theorem participant_left_removes_session
    (destroyThrows : Peer.t → bool) (uid : string) (s : State) :
  let r := handleParticipantLeft destroyThrows uid s in
  (∀ pc, findPeer uid (peersRef s) = Some pc →
     completion r = Normal tt ∧
     peersRef (final r) = withoutPeer uid (peersRef s) ∧
     sessionsFor uid (peersRef (final r)) = [] ∧
     destroyCalls (trace r) = 1 ∧
     head (trace r) = Some (PeerDestroy (PeerConnection.peer pc)) ∧
     connectionStates (final r) = delete uid (connectionStates s) ∧
     connectionStates (final r) !! uid = None) ∧
  (findPeer uid (peersRef s) = None →
     r = mkResult (Normal tt) s [] ∧ destroyCalls (trace r) = 0).
Proof.
  intros r. subst r. unfold handleParticipantLeft. split.
  - intros pc Hfind. rewrite (removePeer_present _ _ _ pc Hfind).
    cbn [completion final trace connectionStates peersRef setConnectionStates setPeers set_peersRef].
    repeat split.
    + apply sessionsFor_withoutPeer.
    + unfold destroyCalls. by destruct (destroyThrows (PeerConnection.peer pc)).
    + apply lookup_delete_eq.
  - intros Hfind. by rewrite removePeer_absent.
Qed.

(** Scenario C: Carol leaves while a session for her exists; a second
    notification finds nothing to do. *)
Lemma participant_left_scenario_C :
  let s := register (responderSession 0 Scenario.camera Scenario.offerFromCarol) initialState in
  let r := handleParticipantLeft Scenario.closes "u-carol" s in
  (peersRef (final r) = [] ∧ destroyCalls (trace r) = 1 ∧
   connectionStates (final r) !! "u-carol" = None) ∧
  handleParticipantLeft Scenario.closes "u-carol" (final r) = mkResult (Normal tt) (final r) [].
Proof.
  intros s r.
  destruct (participant_left_removes_session Scenario.closes "u-carol" s) as [Hfound _].
  destruct (participant_left_removes_session Scenario.closes "u-carol" (final r)) as [_ Hnone].
  destruct (Hfound (responderSession 0 Scenario.camera Scenario.offerFromCarol) eq_refl)
    as (_ & Hreg & _ & Hcalls & _ & _ & Hmap).
  split.
  - split; [exact Hreg | split; [exact Hcalls | exact Hmap]].
  - apply Hnone. reflexivity.
Defined.

(** ** Inbound answers and candidates *)

Lemma routed_signal_caught signalThrows p payload msg s :
  tryCatch (signal signalThrows p payload) (fun _ => consoleError msg) s =
  mkResult (Normal tt) s
           (PeerSignal p payload :: if signalThrows p payload then [ConsoleError msg] else []).
Proof. unfold signal. run_monad. by destruct (signalThrows p payload). Qed.

Lemma handleAnswer_result signalThrows data s :
  handleAnswer signalThrows data s =
  mkResult (Normal tt) s
    match findPeer (WebRTCSignalData.fromUserId data) (peersRef s) with
    | Some pc =>
        PeerSignal (PeerConnection.peer pc) (WebRTCSignalData.answer data)
          :: if signalThrows (PeerConnection.peer pc) (WebRTCSignalData.answer data)
             then [ConsoleError "Error handling answer:"] else []
    | None => [ConsoleError "No peer found for answer from:"]
    end.
Proof.
  unfold handleAnswer. rewrite mbind_run. cbn [get completion final trace app].
  destruct (findPeer _ _) as [pc|]; [by rewrite routed_signal_caught | reflexivity].
Qed.

Lemma handleIceCandidate_result signalThrows data s :
  handleIceCandidate signalThrows data s =
  mkResult (Normal tt) s
    match findPeer (WebRTCSignalData.fromUserId data) (peersRef s) with
    | Some pc =>
        PeerSignal (PeerConnection.peer pc) (WebRTCSignalData.candidate data)
          :: if signalThrows (PeerConnection.peer pc) (WebRTCSignalData.candidate data)
             then [ConsoleError "Error handling ICE candidate:"] else []
    | None => [ConsoleError "No peer found for ICE candidate from:"]
    end.
Proof.
  unfold handleIceCandidate. rewrite mbind_run. cbn [get completion final trace app].
  destruct (findPeer _ _) as [pc|]; [by rewrite routed_signal_caught | reflexivity].
Qed.

(** C7: an inbound answer or candidate from a user without a registered
    session is dropped: the handler returns normally, only logs, and the
    state (registry, React mirror, connection-state map) is unchanged.
    With a session registered, the payload is passed to [signal] of that
    session's primitive, first thing; whether or not the primitive
    throws, the handler returns normally and the state is unchanged. *)
Theorem answer_and_candidate_routing
    (signalThrows : Peer.t → option Signal.t → bool)
    (data : WebRTCSignalData.t) (s : State) :
  let from := WebRTCSignalData.fromUserId data in
  let ra := handleAnswer signalThrows data s in
  let rc := handleIceCandidate signalThrows data s in
  (findPeer from (peersRef s) = None →
     ra = mkResult (Normal tt) s [ConsoleError "No peer found for answer from:"] ∧
     rc = mkResult (Normal tt) s [ConsoleError "No peer found for ICE candidate from:"]) ∧
  (∀ pc, findPeer from (peersRef s) = Some pc →
     completion ra = Normal tt ∧ final ra = s ∧
     head (trace ra) = Some (PeerSignal (PeerConnection.peer pc) (WebRTCSignalData.answer data)) ∧
     completion rc = Normal tt ∧ final rc = s ∧
     head (trace rc) = Some (PeerSignal (PeerConnection.peer pc) (WebRTCSignalData.candidate data)) ∧
     newPeerCalls (trace ra) = 0 ∧ destroyCalls (trace ra) = 0 ∧
     newPeerCalls (trace rc) = 0 ∧ destroyCalls (trace rc) = 0).
Proof.
  intros from ra rc. subst from ra rc.
  rewrite handleAnswer_result, handleIceCandidate_result. split.
  - by intros ->.
  - intros pc ->. cbn [completion final trace head].
    unfold newPeerCalls, destroyCalls.
    destruct (signalThrows (PeerConnection.peer pc) (WebRTCSignalData.answer data)),
             (signalThrows (PeerConnection.peer pc) (WebRTCSignalData.candidate data));
      repeat split.
Qed.

(** An answer and a candidate from Carol: unknown on a new hook, routed
    once her session exists, even to a primitive that throws. *)
Lemma answer_and_candidate_routing_examples :
  let s := register (responderSession 0 Scenario.camera Scenario.offerFromCarol) initialState in
  (handleAnswer Scenario.rejects Scenario.answerFromCarol initialState
   = mkResult (Normal tt) initialState [ConsoleError "No peer found for answer from:"]) ∧
  (handleIceCandidate Scenario.rejects Scenario.candidateFromCarol initialState
   = mkResult (Normal tt) initialState [ConsoleError "No peer found for ICE candidate from:"]) ∧
  (completion (handleAnswer Scenario.rejects Scenario.answerFromCarol s) = Normal tt) ∧
  (final (handleIceCandidate Scenario.rejects Scenario.candidateFromCarol s) = s).
Proof.
  intros s.
  destruct (answer_and_candidate_routing Scenario.rejects Scenario.answerFromCarol initialState)
    as [Ha _].
  destruct (answer_and_candidate_routing Scenario.rejects Scenario.candidateFromCarol initialState)
    as [Hc _].
  destruct (answer_and_candidate_routing Scenario.rejects Scenario.answerFromCarol s)
    as [_ Hka].
  destruct (answer_and_candidate_routing Scenario.rejects Scenario.candidateFromCarol s)
    as [_ Hkc].
  destruct (Ha eq_refl) as [Ha1 _]. destruct (Hc eq_refl) as [_ Hc2].
  destruct (Hka (responderSession 0 Scenario.camera Scenario.offerFromCarol) eq_refl)
    as (Hka1 & _).
  destruct (Hkc (responderSession 0 Scenario.camera Scenario.offerFromCarol) eq_refl)
    as (_ & _ & _ & _ & Hkc5 & _).
  split; [exact Ha1 | split; [exact Hc2 | split; [exact Hka1 | exact Hkc5]]].
Defined.

(** ** Outbound signaling *)




Example outbound_signal_kinds :
  let p := createdPeer 0 Scenario.camera true "u-alice" "alice" in
  trace (peerEvent Scenario.closes p (OnSignal (Scenario.sdp "offer")) initialState)
  = [SendOffer "u-alice" (Scenario.sdp "offer")] ∧
  trace (peerEvent Scenario.closes p (OnSignal (Scenario.sdp "answer")) initialState)
  = [SendAnswer "u-alice" (Scenario.sdp "answer")] ∧
  trace (peerEvent Scenario.closes p (OnSignal Scenario.iceCandidate) initialState)
  = [SendIceCandidate "u-alice" Scenario.iceCandidate] ∧
  trace (peerEvent Scenario.closes p (OnSignal (Scenario.sdp "renegotiate")) initialState)
  = [SendIceCandidate "u-alice" (Scenario.sdp "renegotiate")].
Proof. by repeat split. Qed.

(** The listener [handleOffer] attaches follows the same rule on every
    kind but "offer", which it sends on the candidate channel. *)
Lemma handleOffer_onSignal_channel fromUserId signal s :
  Signal.type signal ≠ Some "offer" →
  ∃ e, handleOffer_onSignal fromUserId signal s = mkResult (Normal tt) s [e] ∧
       SocketService.wire true e
       = Some (SocketService.Emit (channelFor signal) fromUserId signal).
Proof.
  intros Hkind. unfold handleOffer_onSignal, channelFor.
  destruct (Signal.type signal) as [ty|]; [|by repeat eexists].
  destruct (String.eqb_spec ty "offer") as [->|_]; [done|].
  destruct (String.eqb ty "answer"); by repeat eexists.
Qed.

Example handleOffer_onSignal_offer :
  handleOffer_onSignal "u-carol" (Scenario.sdp "offer") initialState
  = mkResult (Normal tt) initialState [SendIceCandidate "u-carol" (Scenario.sdp "offer")].
Proof. reflexivity. Qed.

(** ** Session metadata *)

Lemma initiatorSessions_copy n stream members :
  Forall2 copiesDisplayFields (initiatorSessions n stream members) members.
Proof.
  revert n. induction members as [|u rest IH]; intros n; simpl; constructor; [|apply IH].
  by repeat split.
Qed.

(** C10: the session the inbound-offer path registers carries fallback
    metadata, whatever the relay said about the sender: [firstName] is
    the sender's username, [lastName] is empty, [role] is "attendee" and
    the media flags are unset.  The sessions [initialize] registers copy
    the display fields and flags of the participants they are built
    from. *)
Theorem offer_sessions_store_fallback_metadata
    (signalThrows : Peer.t → option Signal.t → bool)
    (stream : MediaStream.t) (data : WebRTCSignalData.t) (s : State)
    (Hnew : findPeer (WebRTCSignalData.fromUserId data) (peersRef s) = None)
    (Hok : signalThrows (responderPeer (fresh s) stream data) (WebRTCSignalData.offer data)
           = false) :
  (∃ pc, peersRef (final (handleOffer signalThrows (Some stream) data s)) = peersRef s ++ [pc] ∧
         PeerConnection.firstName pc = Some (WebRTCSignalData.fromUsername data) ∧
         PeerConnection.lastName pc = Some "" ∧
         PeerConnection.role pc = Some "attendee" ∧
         PeerConnection.audioEnabled pc = None ∧
         PeerConnection.videoEnabled pc = None ∧
         PeerConnection.screenSharing pc = None) ∧
  (∀ userId participants s0, isInitialized s0 = false →
     ∃ created,
       peersRef (final (initializeWebRTC userId participants (Some stream) s0))
       = peersRef s0 ++ created ∧
       Forall2 copiesDisplayFields created (remoteMembers userId participants)).
Proof.
  split.
  - rewrite handleOffer_accepted by done.
    exists (responderSession (fresh s) stream data). by repeat split.
  - intros userId participants s0 Hidle. rewrite initializeWebRTC_first by done.
    eexists. cbn [final]. rewrite peersRef_registerAll. split; [done|].
    apply initiatorSessions_copy.
Qed.

(** Carol is a host called Carol Shaw; the session her offer creates
    says attendee "carol", the one [initialize] creates says host Carol. *)
Lemma offer_sessions_store_fallback_metadata_carol :
  (findPeer "u-carol" (peersRef initialState) = None) ∧
  (∃ pc, peersRef (final (handleOffer Scenario.accepts (Some Scenario.camera)
                                      Scenario.offerFromCarol initialState))
         = peersRef initialState ++ [pc] ∧
         PeerConnection.firstName pc = Some "carol" ∧
         PeerConnection.lastName pc = Some "" ∧
         PeerConnection.role pc = Some "attendee" ∧
         PeerConnection.audioEnabled pc = None ∧
         PeerConnection.videoEnabled pc = None ∧
         PeerConnection.screenSharing pc = None) ∧
  (∃ created,
     peersRef (final (initializeWebRTC Scenario.bob [Scenario.carol] (Some Scenario.camera)
                                       initialState))
     = peersRef initialState ++ created ∧
     Forall2 copiesDisplayFields created (remoteMembers Scenario.bob [Scenario.carol])).
Proof.
  destruct (offer_sessions_store_fallback_metadata Scenario.accepts Scenario.camera
              Scenario.offerFromCarol initialState eq_refl eq_refl) as [Hoffer Hinit].
  split; [reflexivity | split; [exact Hoffer|]].
  apply (Hinit Scenario.bob [Scenario.carol] initialState). reflexivity.
Defined.

(** ** Loops whose body leaves the state alone *)

Lemma forEach_stateless {A} (f : A → M State unit) (xs : list A) (s : State) :
  (∀ x s', f x s' = mkResult (Normal tt) s' (trace (f x s))) →
  forEach f xs s = mkResult (Normal tt) s (flat_map (fun x => trace (f x s)) xs).
Proof.
  intros Hf. induction xs as [|x xs IH]; [reflexivity|].
  cbn [forEach flat_map]. rewrite mbind_run, Hf. cbn [completion final trace].
  by rewrite IH.
Qed.

Lemma destroyCalls_app a b : destroyCalls (a ++ b) = destroyCalls a + destroyCalls b.
Proof. unfold destroyCalls. by rewrite List.filter_app, length_app. Qed.

Lemma newPeerCalls_app a b : newPeerCalls (a ++ b) = newPeerCalls a + newPeerCalls b.
Proof. unfold newPeerCalls. by rewrite List.filter_app, length_app. Qed.

Lemma replaceCalls_app a b : replaceCalls (a ++ b) = replaceCalls a + replaceCalls b.
Proof. unfold replaceCalls. by rewrite List.filter_app, length_app. Qed.

(** ** Track substitution *)

Lemma head_ofKind k stream tr :
  head (MediaStream.ofKind k stream) = Some tr → MediaStreamTrack.kind tr = k.
Proof.
  unfold MediaStream.ofKind. intros Hhd.
  assert (Hin : In tr (List.filter (fun t => String.eqb (MediaStreamTrack.kind t) k)
                                   (MediaStream.tracks stream))).
  { destruct (List.filter _ _); [done|]. simpl in Hhd. injection Hhd as ->. by left. }
  apply List.filter_In in Hin as [_ Heq]. by apply String.eqb_eq.
Qed.

Lemma hasKind_head k stream :
  hasKind k stream = match head (MediaStream.ofKind k stream) with Some _ => true | None => false end.
Proof. unfold hasKind. by destruct (MediaStream.ofKind k stream). Qed.

Lemma replaceKind_result p rtc k track s :
  replaceKind p rtc k track s =
  mkResult (Normal tt) s
    match track, List.find (RTCRtpSender.carries k) (RTCPeerConnection.getSenders rtc) with
    | Some tr, Some sender => [ReplaceTrack p sender tr]
    | _, _ => []
    end.
Proof. unfold replaceKind. destruct track; [destruct (List.find _ _)|]; reflexivity. Qed.

Lemma updateLocalStreamFor_result _pc newStream pc s :
  updateLocalStreamFor _pc newStream pc s =
  mkResult (Normal tt) s
    match _pc (PeerConnection.peer pc) with
    | Some rtc =>
        match head (MediaStream.getVideoTracks newStream),
              List.find (RTCRtpSender.carries "video") (RTCPeerConnection.getSenders rtc) with
        | Some tr, Some sender => [ReplaceTrack (PeerConnection.peer pc) sender tr]
        | _, _ => []
        end ++
        match head (MediaStream.getAudioTracks newStream),
              List.find (RTCRtpSender.carries "audio") (RTCPeerConnection.getSenders rtc) with
        | Some tr, Some sender => [ReplaceTrack (PeerConnection.peer pc) sender tr]
        | _, _ => []
        end
    | None => []
    end.
Proof.
  unfold updateLocalStreamFor. rewrite tryCatch_run.
  destruct (_pc (PeerConnection.peer pc)) as [rtc|]; [|reflexivity].
  rewrite mbind_run, !replaceKind_result. reflexivity.
Qed.

Lemma updateLocalStreamFor_counts _pc newStream pc s :
  let tr := trace (updateLocalStreamFor _pc newStream pc s) in
  replaceCallsOfKind "video" tr
    = (if hasKind "video" newStream && hasSender _pc "video" (PeerConnection.peer pc)
       then 1 else 0) ∧
  replaceCallsOfKind "audio" tr
    = (if hasKind "audio" newStream && hasSender _pc "audio" (PeerConnection.peer pc)
       then 1 else 0) ∧
  replaceCalls tr = replaceCallsOfKind "video" tr + replaceCallsOfKind "audio" tr ∧
  destroyCalls tr = 0 ∧ newPeerCalls tr = 0 ∧
  Forall (fun e => ∃ sender t, e = ReplaceTrack (PeerConnection.peer pc) sender t) tr.
Proof.
  intros tr. subst tr. rewrite updateLocalStreamFor_result. cbn [trace].
  unfold hasSender. rewrite !hasKind_head.
  unfold MediaStream.getVideoTracks, MediaStream.getAudioTracks.
  destruct (_pc (PeerConnection.peer pc)) as [rtc|].
  2:{ rewrite !andb_false_r. repeat split; constructor. }
  destruct (head (MediaStream.ofKind "video" newStream)) as [v|] eqn:Ev;
    destruct (head (MediaStream.ofKind "audio" newStream)) as [a|] eqn:Ea;
    destruct (List.find (RTCRtpSender.carries "video") _) as [sv|];
    destruct (List.find (RTCRtpSender.carries "audio") _) as [sa|];
    try (apply head_ofKind in Ev); try (apply head_ofKind in Ea);
    unfold replaceCallsOfKind, replaceCalls, destroyCalls, newPeerCalls;
    cbn [app List.filter isReplaceTrack isDestroy isNewPeer andb length];
    rewrite ?Ev, ?Ea; cbn;
    (repeat split; repeat constructor; eauto).
Qed.

Lemma updateLocalStream_result _pc newStream s :
  updateLocalStream _pc newStream s =
  mkResult (Normal tt) s
           (flat_map (fun pc => trace (updateLocalStreamFor _pc newStream pc s)) (peersRef s)).
Proof.
  unfold updateLocalStream. rewrite mbind_run. cbn [get completion final trace app].
  rewrite forEach_stateless; [reflexivity|].
  intros pc s'. by rewrite !updateLocalStreamFor_result.
Qed.

Lemma flat_map_calls {A} (count : list Effect → nat) (f : A → list Effect) (xs : list A) :
  count [] = 0 → (∀ a b, count (a ++ b) = count a + count b) →
  (∀ x, count (f x) = 0) → count (flat_map f xs) = 0.
Proof.
  intros Hnil Happ Hf. induction xs as [|x xs IH]; simpl; [done|].
  by rewrite Happ, Hf, IH.
Qed.

(** C8: [updateLocalStream(newStream)].  The call returns normally and
    leaves the whole state as it was (no session is destroyed, created
    or replaced, and no primitive is constructed or destroyed).  Session
    by session, in registry order, it issues one [replaceTrack] for the
    first video track of [newStream] if the session's connection exists
    and holds a sender carrying video, one for the first audio track
    under the same condition on audio, and nothing else. *)
Theorem update_local_stream_substitutes_tracks
    (_pc : Peer.t → option RTCPeerConnection.t) (newStream : MediaStream.t) (s : State) :
  let r := updateLocalStream _pc newStream s in
  completion r = Normal tt ∧ final r = s ∧
  destroyCalls (trace r) = 0 ∧ newPeerCalls (trace r) = 0 ∧
  trace r = flat_map (fun pc => trace (updateLocalStreamFor _pc newStream pc s)) (peersRef s) ∧
  ∀ pc : PeerConnection.t,
    let tr := trace (updateLocalStreamFor _pc newStream pc s) in
    replaceCallsOfKind "video" tr
      = (if hasKind "video" newStream && hasSender _pc "video" (PeerConnection.peer pc)
         then 1 else 0) ∧
    replaceCallsOfKind "audio" tr
      = (if hasKind "audio" newStream && hasSender _pc "audio" (PeerConnection.peer pc)
         then 1 else 0) ∧
    replaceCalls tr = replaceCallsOfKind "video" tr + replaceCallsOfKind "audio" tr ∧
    Forall (fun e => ∃ sender t, e = ReplaceTrack (PeerConnection.peer pc) sender t) tr.
Proof.
  intros r. subst r. rewrite updateLocalStream_result. cbn [completion final trace].
  split; [done|]. split; [done|]. split; [|split; [|split; [done|]]].
  - apply (flat_map_calls destroyCalls); [done | apply destroyCalls_app |].
    intros pc. apply (updateLocalStreamFor_counts _pc newStream pc s).
  - apply (flat_map_calls newPeerCalls); [done | apply newPeerCalls_app |].
    intros pc. apply (updateLocalStreamFor_counts _pc newStream pc s).
  - intros pc.
    destruct (updateLocalStreamFor_counts _pc newStream pc s) as (Hv & Ha & Hsum & _ & _ & Hall).
    by repeat split.
Qed.

(** When every session's connection holds a sender of each kind, the
    calls per session are as many as the kinds [newStream] carries. *)
Lemma update_local_stream_full_senders _pc newStream s :
  (∀ pc, pc ∈ peersRef s →
     hasSender _pc "video" (PeerConnection.peer pc) = true ∧
     hasSender _pc "audio" (PeerConnection.peer pc) = true) →
  oneReplacePerKindPresent _pc newStream s.
Proof.
  intros Hfull pc Hin. destruct (Hfull pc Hin) as [Hv Ha].
  destruct (updateLocalStreamFor_counts _pc newStream pc s) as (Hcv & Hca & -> & _).
  rewrite Hcv, Hca, Hv, Ha, !andb_true_r. reflexivity.
Qed.

(** Scenario D: two sessions built on the camera stream, then a switch
    to another camera stream: two calls per session, registry as before. *)
Example scenario_D :
  let s := final (Scenario.bobRuns [Initialize [Scenario.alice; Scenario.carol]
                                               (Some Scenario.camera)] initialState) in
  let r := updateLocalStream Scenario.sendersOfStream Scenario.camera s in
  final r = s ∧ replaceCalls (trace r) = 4 ∧ destroyCalls (trace r) = 0 ∧
  length (peersRef s) = 2.
Proof. vm_compute. by repeat split. Qed.

(** Carol joins while Bob shares his screen, a stream with a video track
    only: the connection of her session holds a video sender and no audio
    sender.  When Bob switches back to the camera, the video track is
    replaced and nothing is done for audio: one call where the new
    stream carries two kinds. *)
Lemma update_local_stream_after_screen_share :
  let s := final (Scenario.bobRuns [InboundOffer (Some Scenario.screen) Scenario.offerFromCarol]
                                   initialState) in
  peersRef s = [responderSession 0 Scenario.screen Scenario.offerFromCarol] ∧
  kindsPresent Scenario.camera = 2 ∧
  replaceCalls (trace (updateLocalStream Scenario.sendersOfStream Scenario.camera s)) = 1 ∧
  ¬ oneReplacePerKindPresent Scenario.sendersOfStream Scenario.camera s.
Proof.
  intros s. split; [reflexivity|]. split; [reflexivity|]. split; [reflexivity|].
  intros Hall.
  specialize (Hall (responderSession 0 Scenario.screen Scenario.offerFromCarol)).
  assert (Hin : responderSession 0 Scenario.screen Scenario.offerFromCarol ∈ peersRef s)
    by (vm_compute; left).
  specialize (Hall Hin). vm_compute in Hall. discriminate Hall.
Qed.

(** ** Teardown *)

Lemma cleanup_result destroyThrows s :
  cleanup destroyThrows s =
  mkResult (Normal tt)
           {| peersRef := []; peers := []; connectionStates := ∅;
              isInitialized := false; fresh := fresh s |}
           (flat_map (fun pc => PeerDestroy (PeerConnection.peer pc)
                                  :: if destroyThrows (PeerConnection.peer pc)
                                     then [ConsoleError "Error destroying peer during cleanup:"]
                                     else [])
                     (peersRef s)).
Proof.
  unfold cleanup. rewrite mbind_run. cbn [modify completion final trace app].
  rewrite mbind_run. cbn [get completion final trace app].
  rewrite mbind_run, forEach_stateless.
  - cbn [completion final trace]. run_monad. cbn [peersRef set_isInitialized].
    rewrite !app_nil_r. f_equal. apply flat_map_ext. intros pc.
    unfold destroy. run_monad. by destruct (destroyThrows (PeerConnection.peer pc)).
  - intros pc s'. unfold destroy. run_monad.
    by destruct (destroyThrows (PeerConnection.peer pc)).
Qed.

Lemma cleanup_destroys_each destroyThrows s :
  destroyCalls (trace (cleanup destroyThrows s)) = length (peersRef s).
Proof.
  rewrite cleanup_result. cbn [trace]. induction (peersRef s) as [|pc l IH]; [done|].
  cbn [flat_map]. rewrite destroyCalls_app, IH. unfold destroyCalls.
  by destruct (destroyThrows (PeerConnection.peer pc)).
Qed.

(** ** The event loop *)

Lemma step_result userId signalThrows destroyThrows _pc ev s :
  step userId signalThrows destroyThrows _pc ev s =
  let r := handler userId signalThrows destroyThrows _pc ev s in
  mkResult (Normal tt) (final r)
           (trace r ++ match completion r with
                       | Normal _ => []
                       | Throw _ => [ConsoleError "Error in event handler"]
                       end).
Proof.
  unfold step. rewrite tryCatch_run.
  destruct (handler userId signalThrows destroyThrows _pc ev s) as [[[]|e] s' tr];
    cbn [completion final trace consoleError emit]; by rewrite ?app_nil_r.
Qed.

Lemma run_cons userId signalThrows destroyThrows _pc ev evs s :
  run userId signalThrows destroyThrows _pc (ev :: evs) s =
  let r1 := step userId signalThrows destroyThrows _pc ev s in
  let r2 := run userId signalThrows destroyThrows _pc evs (final r1) in
  mkResult (completion r2) (final r2) (trace r1 ++ trace r2).
Proof.
  unfold run. cbn [forEach]. rewrite mbind_run, step_result. reflexivity.
Qed.


(** What an inbound offer does, case by case. *)
Lemma handleOffer_cases signalThrows localStream data s :
  let r := handleOffer signalThrows localStream data s in
  destroyCalls (trace r) = 0 ∧
  ((final r = s ∧ newPeerCalls (trace r) = 0) ∨
   (final r = bump_fresh s ∧ completion r = Throw "signal") ∨
   (∃ stream, localStream = Some stream ∧
      findPeer (WebRTCSignalData.fromUserId data) (peersRef s) = None ∧
      final r = register (responderSession (fresh s) stream data) s)).
Proof.
  intros r. subst r. destruct localStream as [stream|].
  2:{ rewrite handleOffer_no_media. split; [done | by left]. }
  destruct (findPeer (WebRTCSignalData.fromUserId data) (peersRef s)) as [pc|] eqn:Hfind.
  { rewrite (handleOffer_existing _ _ _ _ pc Hfind). split; [done | by left]. }
  destruct (signalThrows (responderPeer (fresh s) stream data) (WebRTCSignalData.offer data))
    eqn:Hthrows.
  - rewrite handleOffer_rejected by done. split; [done | by right; left].
  - rewrite handleOffer_accepted by done. split; [done|]. right; right. by exists stream.
Qed.



(** ** After teardown *)




(** ** One session per user *)

Lemma register_unique pc s :
  PeerConnection.userId pc ∉ userIds (peersRef s) →
  mirrored s → unique s → mirrored (register pc s) ∧ unique (register pc s).
Proof.
  unfold mirrored, unique. intros Hnew Hm Hu. cbn [register peers peersRef].
  split; [by rewrite Hm|]. rewrite userIds_app. apply NoDup_app.
  split; [done|]. split; [|apply NoDup_singleton].
  intros x Hx Hx'. apply list_elem_of_singleton in Hx'. by subst x.
Qed.

Lemma removePeer_unique destroyThrows uid s :
  mirrored s → unique s →
  mirrored (final (removePeer destroyThrows uid s)) ∧
  unique (final (removePeer destroyThrows uid s)).
Proof.
  unfold mirrored, unique. intros Hm Hu.
  destruct (findPeer uid (peersRef s)) as [pc|] eqn:Hfind.
  - rewrite (removePeer_present _ _ _ pc Hfind).
    cbn [final peers peersRef setConnectionStates setPeers set_peersRef].
    split; [by rewrite Hm|]. eapply sublist_NoDup; [exact Hu | apply withoutPeer_sublist].
  - by rewrite removePeer_absent.
Qed.

Lemma peerEvent_unique destroyThrows p e s :
  mirrored s → unique s →
  mirrored (final (peerEvent destroyThrows p e s)) ∧
  unique (final (peerEvent destroyThrows p e s)).
Proof.
  intros Hm Hu. unfold peerEvent.
  assert (Hstream : ∀ uid remote,
            mirrored (final (onStream uid remote s)) ∧ unique (final (onStream uid remote s))).
  { intros uid remote. unfold onStream, mirrored, unique. run_monad.
    cbn [peers peersRef setConnectionStates setPeers set_peersRef].
    split; [done|]. rewrite userIds_attachStream. by rewrite Hm. }
  destruct (Peer.listeners p) as [uid uname|uid uname], e as [sg|remote| |err|];
    try apply Hstream; try (by apply removePeer_unique); try done.
  - unfold createPeer_onSignal.
    destruct (Signal.type sg) as [ty|]; [|done].
    destruct (String.eqb ty "offer"); [done|]. by destruct (String.eqb ty "answer").
  - unfold handleOffer_onSignal.
    destruct (Signal.type sg) as [ty|]; [|done]. by destruct (String.eqb ty "answer").
Qed.

(** Every event but [Initialize] keeps the registry free of duplicates,
    inbound offers included. *)
Lemma step_unique userId signalThrows destroyThrows _pc ev s :
  isInitialize ev = false → mirrored s → unique s →
  mirrored (final (step userId signalThrows destroyThrows _pc ev s)) ∧
  unique (final (step userId signalThrows destroyThrows _pc ev s)).
Proof.
  intros Hev Hm Hu. rewrite step_result. cbn [final].
  destruct ev; try discriminate Hev; cbn [handler].
  - destruct (handleOffer_cases signalThrows localStream data s)
      as [_ [[-> _]|[[-> _]|(stream & _ & Hfind & ->)]]]; [done | done |].
    apply register_unique; [|done|done]. by apply findPeer_None in Hfind.
  - by rewrite handleAnswer_result.
  - by rewrite handleIceCandidate_result.
  - done.
  - by apply removePeer_unique.
  - by rewrite updateLocalStream_result.
  - rewrite cleanup_result. cbn [final]. split; [done | apply NoDup_nil_2].
  - by apply peerEvent_unique.
Qed.

Lemma run_unique userId signalThrows destroyThrows _pc evs s :
  Forall (fun ev => isInitialize ev = false) evs → mirrored s → unique s →
  unique (final (run userId signalThrows destroyThrows _pc evs s)).
Proof.
  intros Hevs. revert s. induction Hevs as [|ev evs Hev _ IH]; intros s Hm Hu; [done|].
  rewrite run_cons. cbn [final].
  destruct (step_unique userId signalThrows destroyThrows _pc ev s Hev Hm Hu) as [Hm' Hu'].
  by apply IH.
Qed.


(** C1 at its failing input.  Bob is alone in the room with his camera
    on; Carol joins and her offer reaches Bob's hook before the page
    calls [initialize] with the new member list.  [handleOffer] registers
    a responder session for Carol; [initializeWebRTC], which looks at
    [isInitialized] only, registers an initiator session for her as
    well. *)
Theorem offer_then_initialize_registers_twice :
  let r := Scenario.bobRuns [InboundOffer (Some Scenario.camera) Scenario.offerFromCarol;
                             Initialize [Scenario.carol] (Some Scenario.camera)]
                            initialState in
  peersRef (final r)
  = [responderSession 0 Scenario.camera Scenario.offerFromCarol;
     createdSession 1 Scenario.camera true "u-carol" "carol" Scenario.carol] ∧
  userIds (peersRef (final r)) = ["u-carol"; "u-carol"] ∧
  ¬ unique (final r).
Proof.
  intros r. split; [reflexivity|]. split; [reflexivity|].
  unfold unique. change (userIds (peersRef (final r))) with ["u-carol"; "u-carol"].
  intros Hnd. apply NoDup_cons in Hnd as [Hnotin _]. apply Hnotin. left.
Qed.

(** In the other order the offer is ignored. *)
Example initialize_then_offer_registers_once :
  let r := Scenario.bobRuns [Initialize [Scenario.carol] (Some Scenario.camera);
                             InboundOffer (Some Scenario.camera) Scenario.offerFromCarol]
                            initialState in
  peersRef (final r) = [createdSession 0 Scenario.camera true "u-carol" "carol" Scenario.carol].
Proof. reflexivity. Qed.

(** ** The earlier variant, side by side *)

(** No re-entrancy guard: a second [initialize] connects again. *)
Example legacy_initialize_twice_registers_twice :
  let once := final (Legacy.initializeWebRTC Scenario.bob LegacyScenario.sorted
                       [LegacyScenario.alice] Scenario.camera Legacy.initialState) in
  let twice := final (Legacy.initializeWebRTC Scenario.bob LegacyScenario.sorted
                        [LegacyScenario.alice] Scenario.camera once) in
  LegacyScenario.legacyUserIds (Legacy.peersRef once) = ["u-alice"] ∧
  LegacyScenario.legacyUserIds (Legacy.peersRef twice) = ["u-alice"; "u-alice"].
Proof. by vm_compute. Qed.

(** No look-up before answering: a repeated offer registers again. *)
Example legacy_repeated_offer_registers_twice :
  let once := final (Legacy.handleOffer Scenario.accepts (Some Scenario.camera)
                       Scenario.offerFromCarol Legacy.initialState) in
  let twice := final (Legacy.handleOffer Scenario.accepts (Some Scenario.camera)
                        Scenario.offerFromCarol once) in
  LegacyScenario.legacyUserIds (Legacy.peersRef twice) = ["u-carol"; "u-carol"].
Proof. by vm_compute. Qed.

(** Its [signal] listener sends offers and answers only. *)
Lemma legacy_other_kinds_not_sent targetUserId signal s :
  channelFor signal = "ice-candidate" →
  Legacy.createPeer_onSignal targetUserId signal s = mkResult (Normal tt) s [].
Proof.
  unfold channelFor, Legacy.createPeer_onSignal.
  destruct (Signal.type signal) as [ty|]; [|done].
  destruct (String.eqb ty "offer"); [done|]. by destruct (String.eqb ty "answer").
Qed.

(** No [try]/[catch] around the primitive: its exception leaves
    [handleAnswer]. *)
Example legacy_answer_exception_escapes :
  let s := final (Legacy.handleOffer Scenario.accepts (Some Scenario.camera)
                    Scenario.offerFromCarol Legacy.initialState) in
  completion (Legacy.handleAnswer Scenario.rejects Scenario.answerFromCarol s) = Throw "signal".
Proof. reflexivity. Qed.

(** * Further properties of the hook *)

(** ** What every event keeps *)

Lemma registerAll_mirrored l s : mirrored s → mirrored (registerAll l s).
Proof.
  unfold mirrored. intros Hm. by rewrite peers_registerAll, peersRef_registerAll, Hm.
Qed.

Lemma initializeWebRTC_final userId participants stream s :
  final (initializeWebRTC userId participants stream s) = s ∨
  ∃ st, stream = Some st ∧ isInitialized s = false ∧
        final (initializeWebRTC userId participants stream s)
        = registerAll (initiatorSessions (fresh s) st (remoteMembers userId participants))
                      (set_isInitialized true s).
Proof.
  destruct stream as [st|]; [|by left].
  destruct (isInitialized s) eqn:Hflag.
  - left. by rewrite initializeWebRTC_again.
  - right. exists st. by rewrite initializeWebRTC_first.
Qed.

Lemma step_mirrored userId signalThrows destroyThrows _pc ev s :
  mirrored s → mirrored (final (step userId signalThrows destroyThrows _pc ev s)).
Proof.
  intros Hm. rewrite step_result. cbn [final].
  destruct ev; cbn [handler].
  - destruct (initializeWebRTC_final userId participants stream s)
      as [->|(st & _ & _ & ->)]; [done|]. by apply registerAll_mirrored.
  - destruct (handleOffer_cases signalThrows localStream data s)
      as [_ [[-> _]|[[-> _]|(stream & _ & _ & ->)]]]; [done | done |].
    unfold mirrored in *. cbn [register peers peersRef]. by rewrite Hm.
  - by rewrite handleAnswer_result.
  - by rewrite handleIceCandidate_result.
  - done.
  - unfold handleParticipantLeft.
    destruct (findPeer uid (peersRef s)) as [pc|] eqn:Hfind.
    + rewrite (removePeer_present _ _ _ pc Hfind). unfold mirrored in *.
      cbn [final peers peersRef setConnectionStates setPeers set_peersRef]. by rewrite Hm.
    + by rewrite removePeer_absent.
  - by rewrite updateLocalStream_result.
  - by rewrite cleanup_result.
  - unfold peerEvent.
    assert (Hremove : ∀ uid, mirrored (final (removePeer destroyThrows uid s))).
    { intros uid. destruct (findPeer uid (peersRef s)) as [pc|] eqn:Hfind.
      - rewrite (removePeer_present _ _ _ pc Hfind). unfold mirrored in *.
        cbn [final peers peersRef setConnectionStates setPeers set_peersRef]. by rewrite Hm.
      - by rewrite removePeer_absent. }
    destruct (Peer.listeners p) as [uid uname|uid uname], e as [sg|remote| |err|];
      try apply Hremove; try done.
    + unfold createPeer_onSignal.
      destruct (Signal.type sg) as [ty|]; [|done].
      destruct (String.eqb ty "offer"); [done|]. by destruct (String.eqb ty "answer").
    + unfold handleOffer_onSignal.
      destruct (Signal.type sg) as [ty|]; [|done]. by destruct (String.eqb ty "answer").
Qed.



Lemma register_covered pc s : covered s → covered (register pc s).
Proof.
  unfold covered. intros Hc uid. cbn [register peersRef connectionStates].
  rewrite userIds_app, elem_of_app. intros [Hin|Hin].
  - apply lookup_insert_is_Some'. right. by apply Hc.
  - apply lookup_insert_is_Some'. left.
    apply list_elem_of_singleton in Hin. by subst uid.
Qed.

Lemma registerAll_covered l s : covered s → covered (registerAll l s).
Proof.
  unfold registerAll. revert s. induction l as [|pc l IH]; intros s Hc; [done|].
  cbn [fold_left]. apply IH. by apply register_covered.
Qed.

Lemma removePeer_covered destroyThrows uid s :
  covered s → covered (final (removePeer destroyThrows uid s)).
Proof.
  intros Hc. destruct (findPeer uid (peersRef s)) as [pc|] eqn:Hfind.
  - rewrite (removePeer_present _ _ _ pc Hfind). unfold covered in *.
    cbn [final connectionStates peersRef setConnectionStates setPeers set_peersRef].
    intros uid' Hin.
    assert (uid' ≠ uid) by (intros ->; by apply (userIds_withoutPeer uid (peersRef s))).
    rewrite lookup_delete_ne by done. apply Hc.
    eapply elem_of_sublist; [exact Hin | apply withoutPeer_sublist].
  - by rewrite removePeer_absent.
Qed.

Lemma inserted_covered uid value s :
  covered s → covered (setConnectionStates (fun prev => <[uid := value]> prev) s).
Proof.
  unfold covered. intros Hc uid' Hin. cbn [setConnectionStates connectionStates].
  apply lookup_insert_is_Some'. right. by apply Hc.
Qed.

Lemma step_covered userId signalThrows destroyThrows _pc ev s :
  mirrored s → covered s →
  covered (final (step userId signalThrows destroyThrows _pc ev s)).
Proof.
  intros Hm Hc. rewrite step_result. cbn [final].
  destruct ev; cbn [handler].
  - destruct (initializeWebRTC_final userId participants stream s)
      as [->|(st & _ & _ & ->)]; [done|]. by apply registerAll_covered.
  - destruct (handleOffer_cases signalThrows localStream data s)
      as [_ [[-> _]|[[-> _]|(stream & _ & _ & ->)]]]; [done | done |].
    by apply register_covered.
  - by rewrite handleAnswer_result.
  - by rewrite handleIceCandidate_result.
  - done.
  - by apply removePeer_covered.
  - by rewrite updateLocalStream_result.
  - rewrite cleanup_result. intros uid Hin. cbn [final peersRef userIds List.map] in Hin.
    by apply elem_of_nil in Hin.
  - unfold peerEvent.
    assert (Hstream : ∀ uid remote, covered (final (onStream uid remote s))).
    { intros uid remote. unfold onStream, covered. run_monad.
      cbn [peers peersRef connectionStates setConnectionStates setPeers set_peersRef].
      intros uid'. rewrite userIds_attachStream, Hm. intros Hin.
      apply lookup_insert_is_Some'. right. by apply Hc. }
    destruct (Peer.listeners p) as [uid uname|uid uname], e as [sg|remote| |err|];
      try apply Hstream; try (by apply removePeer_covered);
      try (by apply inserted_covered); try done.
    + unfold createPeer_onSignal.
      destruct (Signal.type sg) as [ty|]; [|done].
      destruct (String.eqb ty "offer"); [done|]. by destruct (String.eqb ty "answer").
    + unfold handleOffer_onSignal.
      destruct (Signal.type sg) as [ty|]; [|done]. by destruct (String.eqb ty "answer").
Qed.

(** X2: every user with a registered session has an entry in the
    connection-state map, and no event of any kind breaks that: a
    consumer that finds a peer in [peers] finds a state for it in
    [connectionStates]. *)
Theorem registered_users_have_a_state
    (userId : string) (signalThrows : Peer.t → option Signal.t → bool)
    (destroyThrows : Peer.t → bool) (_pc : Peer.t → option RTCPeerConnection.t)
    (evs : list Event) (s : State)
    (Hm : mirrored s) (Hc : covered s) :
  covered (final (run userId signalThrows destroyThrows _pc evs s)).
Proof.
  revert s Hm Hc. induction evs as [|ev evs IH]; intros s Hm Hc; [done|].
  rewrite run_cons. cbn [final]. apply IH; [by apply step_mirrored | by apply step_covered].
Qed.

Lemma registered_users_have_a_state_in_a_room :
  mirrored initialState ∧ covered initialState ∧
  covered (final (Scenario.bobRuns
                    [Initialize [Scenario.alice] (Some Scenario.camera);
                     InboundOffer (Some Scenario.camera) Scenario.offerFromCarol;
                     FromPeer (createdPeer 0 Scenario.camera true "u-alice" "alice")
                              (OnError "ice failed");
                     ParticipantLeft "u-carol"]
                    initialState)).
Proof.
  assert (Hc : covered initialState).
  { intros uid Hin. cbn in Hin. by apply elem_of_nil in Hin. }
  split; [reflexivity|]. split; [exact Hc|].
  apply (registered_users_have_a_state Scenario.bob Scenario.accepts Scenario.closes
           Scenario.sendersOfStream); [reflexivity | exact Hc].
Defined.

(** ** Joining first *)







(** ** Teardown and departures *)

Lemma destroyedPeers_app a b : destroyedPeers (a ++ b) = destroyedPeers a ++ destroyedPeers b.
Proof. unfold destroyedPeers. apply flat_map_app. Qed.

(** X4: [cleanup()] always returns normally and leaves an empty
    registry, an empty [peers], an empty connection-state map and the
    flag down; it calls [destroy] on the primitive of every registered
    session, once each and in registry order, also when some of these
    calls throw, and constructs nothing.  A second [cleanup()] right
    after it does nothing at all. *)
Theorem cleanup_tears_everything_down (destroyThrows : Peer.t → bool) (s : State) :
  let r := cleanup destroyThrows s in
  completion r = Normal tt ∧
  peersRef (final r) = [] ∧ peers (final r) = [] ∧
  connectionStates (final r) = ∅ ∧ isInitialized (final r) = false ∧
  destroyedPeers (trace r) = List.map PeerConnection.peer (peersRef s) ∧
  newPeerCalls (trace r) = 0 ∧
  cleanup destroyThrows (final r) = mkResult (Normal tt) (final r) [].
Proof.
  intros r. subst r. rewrite !cleanup_result. cbn [completion final trace peersRef flat_map].
  repeat split.
  - induction (peersRef s) as [|pc l IH]; [done|].
    cbn [flat_map List.map]. rewrite destroyedPeers_app, IH.
    by destruct (destroyThrows (PeerConnection.peer pc)).
  - induction (peersRef s) as [|pc l IH]; [done|].
    cbn [flat_map]. rewrite newPeerCalls_app, IH.
    by destruct (destroyThrows (PeerConnection.peer pc)).
Qed.

(** X5: [cleanup()] is what arms [initialize] again.  Whatever the
    state before, an [initialize] with a stream that follows a
    [cleanup()] registers exactly the initiator sessions of the remote
    members, in list order, and nothing else is left in the registry. *)
Theorem initialize_after_cleanup
    (userId : string) (destroyThrows : Peer.t → bool)
    (participants : list Participant.t) (stream : MediaStream.t) (s : State) :
  let torn := final (cleanup destroyThrows s) in
  let r := initializeWebRTC userId participants (Some stream) torn in
  peersRef (final r)
  = initiatorSessions (fresh s) stream (remoteMembers userId participants) ∧
  userIds (peersRef (final r))
  = List.map Participant.userId (remoteMembers userId participants) ∧
  isInitialized (final r) = true ∧
  newPeerCalls (trace r) = length (remoteMembers userId participants).
Proof.
  intros torn r. subst torn r. rewrite cleanup_result. cbn [final].
  rewrite initializeWebRTC_first by done. cbn [final trace fresh].
  rewrite peersRef_registerAll, isInitialized_registerAll, newPeerCalls_map.
  cbn [peersRef set_isInitialized isInitialized app].
  rewrite userIds_initiatorSessions.
  repeat split. clear. generalize (fresh s).
  induction (remoteMembers userId participants) as [|u l IH]; intros n; [done|].
  cbn [initiatorSessions length]. by rewrite IH.
Qed.

(** X6: telling the hook twice that a participant left is the same as
    telling it once: the second call finds no session, changes nothing
    and calls nothing, so [destroy] is called at most once in all. *)
Theorem participant_left_twice (destroyThrows : Peer.t → bool) (uid : string) (s : State) :
  let r1 := handleParticipantLeft destroyThrows uid s in
  let r2 := handleParticipantLeft destroyThrows uid (final r1) in
  r2 = mkResult (Normal tt) (final r1) [] ∧
  destroyCalls (trace r1 ++ trace r2) ≤ 1.
Proof.
  intros r1 r2. subst r1 r2. unfold handleParticipantLeft.
  destruct (findPeer uid (peersRef s)) as [pc|] eqn:Hfind.
  - rewrite (removePeer_present _ _ _ pc Hfind). cbn [final trace].
    rewrite removePeer_absent.
    + cbn [trace]. rewrite app_nil_r. split; [done|]. unfold destroyCalls.
      by destruct (destroyThrows (PeerConnection.peer pc)).
    + cbn [peersRef setConnectionStates setPeers set_peersRef].
      apply findPeer_None, userIds_withoutPeer.
  - rewrite !(removePeer_absent _ _ s Hfind). cbn [final trace].
    rewrite ?(removePeer_absent _ _ s Hfind). split; [done|]. cbn. lia.
Qed.

Lemma sessionsFor_withoutPeer_ne uid uid' l :
  uid' ≠ uid → sessionsFor uid' (withoutPeer uid l) = sessionsFor uid' l.
Proof.
  intros Hne. unfold sessionsFor, withoutPeer. induction l as [|p l IH]; [done|].
  cbn [List.filter].
  destruct (String.eqb_spec (PeerConnection.userId p) uid) as [Heq|Hneq]; cbn [negb List.filter].
  - destruct (String.eqb_spec (PeerConnection.userId p) uid') as [Heq'|_]; [congruence | done].
  - by rewrite IH.
Qed.

(** X7: a departure touches the departing user only.  For any other
    user, the sessions registered, their order and the entry in the
    connection-state map are as before, the flag is as before, and every
    primitive that is destroyed belongs to a session of the departing
    user. *)
Theorem participant_left_spares_others
    (destroyThrows : Peer.t → bool) (uid other : string) (s : State)
    (Hother : other ≠ uid) :
  let r := handleParticipantLeft destroyThrows uid s in
  sessionsFor other (peersRef (final r)) = sessionsFor other (peersRef s) ∧
  connectionStates (final r) !! other = connectionStates s !! other ∧
  isInitialized (final r) = isInitialized s ∧
  Forall (fun p => ∃ pc, pc ∈ peersRef s ∧ PeerConnection.userId pc = uid ∧
                         PeerConnection.peer pc = p)
         (destroyedPeers (trace r)).
Proof.
  intros r. subst r. unfold handleParticipantLeft.
  destruct (findPeer uid (peersRef s)) as [pc|] eqn:Hfind.
  - rewrite (removePeer_present _ _ _ pc Hfind).
    cbn [final trace peersRef connectionStates isInitialized
         setConnectionStates setPeers set_peersRef].
    split; [by apply sessionsFor_withoutPeer_ne|].
    split; [by apply lookup_delete_ne|]. split; [done|].
    apply findPeer_Some in Hfind as [Hin Huid].
    destruct (destroyThrows (PeerConnection.peer pc)); cbn; constructor; eauto.
  - rewrite removePeer_absent by done. cbn. repeat split. constructor.
Qed.

Lemma participant_left_spares_others_alice :
  let s := final (Scenario.bobRuns [Initialize [Scenario.alice; Scenario.carol]
                                               (Some Scenario.camera)] initialState) in
  let r := handleParticipantLeft Scenario.closes "u-carol" s in
  "u-alice" ≠ "u-carol" ∧
  sessionsFor "u-alice" (peersRef (final r)) = sessionsFor "u-alice" (peersRef s) ∧
  connectionStates (final r) !! "u-alice" = connectionStates s !! "u-alice" ∧
  isInitialized (final r) = isInitialized s ∧
  Forall (fun p => ∃ pc, pc ∈ peersRef s ∧ PeerConnection.userId pc = "u-carol" ∧
                         PeerConnection.peer pc = p)
         (destroyedPeers (trace r)).
Proof.
  intros s r.
  assert (Hne : "u-alice" ≠ "u-carol") by discriminate.
  split; [exact Hne|].
  exact (participant_left_spares_others Scenario.closes "u-carol" "u-alice" s Hne).
Defined.

(** ** Events of the primitives *)

Lemma sessionsFor_attachStream uid remote l :
  Forall (fun pc => PeerConnection.stream pc = Some remote)
         (sessionsFor uid (attachStream uid remote l)).
Proof.
  unfold sessionsFor, attachStream. induction l as [|p l IH]; [constructor|].
  cbn [List.map List.filter].
  destruct (String.eqb (PeerConnection.userId p) uid) eqn:E.
  - cbn [PeerConnection.withStream PeerConnection.userId]. rewrite E. by constructor.
  - by rewrite E.
Qed.

Lemma withoutPeer_attachStream uid remote l :
  withoutPeer uid (attachStream uid remote l) = withoutPeer uid l.
Proof.
  unfold withoutPeer, attachStream. induction l as [|p l IH]; [done|].
  cbn [List.map List.filter].
  destruct (String.eqb (PeerConnection.userId p) uid) eqn:E.
  - cbn [PeerConnection.withStream PeerConnection.userId]. rewrite E. cbn. apply IH.
  - rewrite E. cbn. by rewrite IH.
Qed.

Lemma peerEvent_stream destroyThrows p remote s :
  peerEvent destroyThrows p (OnStream remote) s = onStream (remoteUser p) remote s.
Proof. unfold peerEvent, remoteUser. by destruct (Peer.listeners p). Qed.

Lemma peerEvent_error destroyThrows p err s :
  peerEvent destroyThrows p (OnError err) s = onError (remoteUser p) s.
Proof. unfold peerEvent, remoteUser. by destruct (Peer.listeners p). Qed.

Lemma peerEvent_close destroyThrows p s :
  peerEvent destroyThrows p OnClose s = removePeer destroyThrows (remoteUser p) s.
Proof. unfold peerEvent, remoteUser. by destruct (Peer.listeners p). Qed.

(** X8: a remote stream arriving on a primitive, whichever path built
    it.  The listener calls nothing; it attaches the stream to every
    session of the primitive's user and to no other session, keeps the
    users and their order, marks the user "connected", and replaces the
    registry by what it computed from the React state [peers]. *)
Theorem stream_event_attaches_stream
    (destroyThrows : Peer.t → bool) (p : Peer.t) (remote : MediaStream.t) (s : State) :
  let uid := remoteUser p in
  let r := peerEvent destroyThrows p (OnStream remote) s in
  completion r = Normal tt ∧ trace r = [] ∧
  peersRef (final r) = attachStream uid remote (peers s) ∧
  peers (final r) = peersRef (final r) ∧
  userIds (peersRef (final r)) = userIds (peers s) ∧
  Forall (fun pc => PeerConnection.stream pc = Some remote)
         (sessionsFor uid (peersRef (final r))) ∧
  withoutPeer uid (peersRef (final r)) = withoutPeer uid (peers s) ∧
  connectionStates (final r) = <[uid := "connected"]> (connectionStates s) ∧
  isInitialized (final r) = isInitialized s.
Proof.
  intros uid r. subst uid r. rewrite peerEvent_stream. unfold onStream. run_monad.
  cbn [peers peersRef connectionStates isInitialized setConnectionStates setPeers set_peersRef].
  repeat split.
  - apply userIds_attachStream.
  - apply sessionsFor_attachStream.
  - apply withoutPeer_attachStream.
Qed.

(** X9: a primitive reporting an error.  The [error] listener marks the
    user "failed" and touches neither the registry nor any primitive: the
    session stays registered.  If the primitive then closes, a session
    registered for the user is destroyed and removed together with the
    mark.  If no session is registered for the user any more (the error
    comes from a primitive whose session is gone), the [close] listener
    does nothing and the "failed" entry stays in the map with no session
    behind it. *)
Theorem error_then_close
    (destroyThrows : Peer.t → bool) (p : Peer.t) (err : string) (s : State) :
  let uid := remoteUser p in
  let r1 := peerEvent destroyThrows p (OnError err) s in
  let r2 := peerEvent destroyThrows p OnClose (final r1) in
  (peersRef (final r1) = peersRef s ∧ peers (final r1) = peers s ∧
   connectionStates (final r1) = <[uid := "failed"]> (connectionStates s) ∧
   destroyCalls (trace r1) = 0 ∧ newPeerCalls (trace r1) = 0) ∧
  (∀ pc, findPeer uid (peersRef s) = Some pc →
     sessionsFor uid (peersRef (final r2)) = [] ∧
     connectionStates (final r2) !! uid = None ∧
     destroyedPeers (trace r2) = [PeerConnection.peer pc]) ∧
  (findPeer uid (peersRef s) = None →
     r2 = mkResult (Normal tt) (final r1) [] ∧
     connectionStates (final r2) !! uid = Some "failed" ∧
     sessionsFor uid (peersRef (final r2)) = []).
Proof.
  intros uid r1 r2. subst uid r1 r2. rewrite peerEvent_error, peerEvent_close.
  unfold onError. run_monad.
  cbn [peers peersRef connectionStates setConnectionStates].
  split; [by repeat split|]. split.
  - intros pc Hfind.
    rewrite (removePeer_present destroyThrows (remoteUser p) _ pc) by exact Hfind.
    cbn [final trace peersRef connectionStates setConnectionStates setPeers set_peersRef].
    split; [apply sessionsFor_withoutPeer|]. split; [apply lookup_delete_eq|].
    by destruct (destroyThrows (PeerConnection.peer pc)).
  - intros Hfind. rewrite removePeer_absent by exact Hfind. cbn [final peersRef connectionStates].
    split; [done|]. split; [apply lookup_insert_eq|].
    apply sessionsFor_absent. by apply findPeer_None.
Qed.

Lemma error_then_close_examples :
  let p := responderPeer 0 Scenario.camera Scenario.offerFromCarol in
  let s := register (responderSession 0 Scenario.camera Scenario.offerFromCarol) initialState in
  (connectionStates
     (final (peerEvent Scenario.closes p OnClose
               (final (peerEvent Scenario.closes p (OnError "ice failed") s)))) !! "u-carol"
   = None) ∧
  (connectionStates
     (final (peerEvent Scenario.closes p OnClose
               (final (peerEvent Scenario.closes p (OnError "ice failed") initialState))))
     !! "u-carol"
   = Some "failed").
Proof.
  intros p s.
  destruct (error_then_close Scenario.closes p "ice failed" s) as (_ & Hreg & _).
  destruct (error_then_close Scenario.closes p "ice failed" initialState) as (_ & _ & Hgone).
  destruct (Hreg (responderSession 0 Scenario.camera Scenario.offerFromCarol) eq_refl)
    as (_ & Hnone & _).
  destruct (Hgone eq_refl) as (_ & Hfailed & _).
  split; [exact Hnone | exact Hfailed].
Defined.

(** ** [updatePeerStates] *)

Lemma userIds_applyUpdates u l : userIds (applyUpdates u l) = userIds l.
Proof.
  unfold userIds, applyUpdates. rewrite List.map_map. apply List.map_ext.
  intros p. destruct (String.eqb_spec (PeerConnection.userId p) (ParticipantUpdates.userId u));
    [by cbn | done].
Qed.

Lemma withoutPeer_applyUpdates u l :
  withoutPeer (ParticipantUpdates.userId u) (applyUpdates u l)
  = withoutPeer (ParticipantUpdates.userId u) l.
Proof.
  unfold withoutPeer, applyUpdates. induction l as [|p l IH]; [done|].
  cbn [List.map List.filter].
  destruct (String.eqb (PeerConnection.userId p) (ParticipantUpdates.userId u)) eqn:E.
  - cbn [ParticipantUpdates.merge PeerConnection.userId]. rewrite String.eqb_refl. cbn. apply IH.
  - rewrite E. cbn. by rewrite IH.
Qed.

Lemma applyUpdates_unknown u l :
  ParticipantUpdates.userId u ∉ userIds l → applyUpdates u l = l.
Proof.
  unfold applyUpdates, userIds. induction l as [|p l IH]; [done|].
  cbn [List.map]. rewrite not_elem_of_cons. intros [Hne Hnin].
  destruct (String.eqb_spec (PeerConnection.userId p) (ParticipantUpdates.userId u));
    [congruence|]. by rewrite IH.
Qed.

(** X10: [updatePeerStates], whatever keys the update carries.  It
    calls nothing and leaves the connection-state map and the flag
    alone; it never adds, removes, reorders or re-keys a session; the
    sessions of other users are untouched; an update for a user without
    a session changes no session.  Afterwards the registry equals the
    React state it was computed from. *)
Theorem update_peer_states_keeps_sessions (u : ParticipantUpdates.t) (s : State) :
  let r := updatePeerStates u s in
  completion r = Normal tt ∧ trace r = [] ∧
  peersRef (final r) = applyUpdates u (peers s) ∧
  peers (final r) = peersRef (final r) ∧
  userIds (peersRef (final r)) = userIds (peers s) ∧
  withoutPeer (ParticipantUpdates.userId u) (peersRef (final r))
  = withoutPeer (ParticipantUpdates.userId u) (peers s) ∧
  connectionStates (final r) = connectionStates s ∧
  isInitialized (final r) = isInitialized s ∧
  (ParticipantUpdates.userId u ∉ userIds (peers s) → peersRef (final r) = peers s).
Proof.
  intros r. subst r. unfold updatePeerStates. run_monad.
  cbn [peers peersRef connectionStates isInitialized setPeers set_peersRef].
  repeat split.
  - apply userIds_applyUpdates.
  - apply withoutPeer_applyUpdates.
  - apply applyUpdates_unknown.
Qed.

Lemma update_peer_states_unknown_user :
  let u := {| ParticipantUpdates.userId := "u-dave";
              ParticipantUpdates.peerId := None; ParticipantUpdates.peer := None;
              ParticipantUpdates.stream := None; ParticipantUpdates.username := None;
              ParticipantUpdates.firstName := None; ParticipantUpdates.lastName := None;
              ParticipantUpdates.role := None;
              ParticipantUpdates.audioEnabled := Some (Some false);
              ParticipantUpdates.videoEnabled := None;
              ParticipantUpdates.screenSharing := None |} in
  let s := register (responderSession 0 Scenario.camera Scenario.offerFromCarol) initialState in
  (ParticipantUpdates.userId u ∉ userIds (peers s)) ∧
  peersRef (final (updatePeerStates u s)) = peers s.
Proof.
  intros u s.
  assert (Hunknown : ParticipantUpdates.userId u ∉ userIds (peers s)).
  { cbn. intros Hin. apply list_elem_of_singleton in Hin. discriminate Hin. }
  split; [exact Hunknown|].
  destruct (update_peer_states_keeps_sessions u s) as (_ & _ & _ & _ & _ & _ & _ & _ & Hsame).
  exact (Hsame Hunknown).
Defined.

(** ** Subscriptions that are never removed *)

Lemma signalledTo_app p a b : signalledTo p (a ++ b) = signalledTo p a ++ signalledTo p b.
Proof. unfold signalledTo. apply flat_map_app. Qed.

Lemma resubscribed_length streams acc :
  length (fold_left (fun acc localStream => subscribe localStream (unsubscribe acc)) streams acc)
  = length acc + length streams.
Proof.
  revert acc. induction streams as [|ls streams IH]; intros acc; cbn [fold_left length]; [lia|].
  rewrite IH. unfold subscribe, unsubscribe. rewrite length_app. cbn. lia.
Qed.

Lemma routed_signals_repeat userId signalThrows destroyThrows _pc
    (mk : WebRTCSignalData.t → Event) (payload : WebRTCSignalData.t → option Signal.t)
    data s pc (subscribed : list (option MediaStream.t)) :
  (∀ s', final (step userId signalThrows destroyThrows _pc (mk data) s') = s' ∧
         (findPeer (WebRTCSignalData.fromUserId data) (peersRef s') = Some pc →
          signalledTo (PeerConnection.peer pc)
                      (trace (step userId signalThrows destroyThrows _pc (mk data) s'))
          = [payload data])) →
  findPeer (WebRTCSignalData.fromUserId data) (peersRef s) = Some pc →
  let r := run userId signalThrows destroyThrows _pc
               (List.map (fun _ => mk data) subscribed) s in
  final r = s ∧
  signalledTo (PeerConnection.peer pc) (trace r) = List.repeat (payload data) (length subscribed).
Proof.
  intros Hstep Hfind. induction subscribed as [|ls subscribed IH]; [done|].
  cbn [List.map length List.repeat]. rewrite run_cons. cbn [final trace].
  destruct (Hstep s) as [-> Hsig]. destruct IH as [IHs IHt].
  split; [exact IHs|]. rewrite signalledTo_app, (Hsig Hfind), IHt. done.
Qed.

Lemma offers_ignored_when_registered userId signalThrows destroyThrows _pc data s pc
    (subscribed : list (option MediaStream.t)) :
  findPeer (WebRTCSignalData.fromUserId data) (peersRef s) = Some pc →
  final (socketOffer userId signalThrows destroyThrows _pc subscribed data s) = s ∧
  newPeerCalls (trace (socketOffer userId signalThrows destroyThrows _pc subscribed data s)) = 0.
Proof.
  intros Hfind. unfold socketOffer. induction subscribed as [|ls subscribed IH]; [done|].
  cbn [List.map]. rewrite run_cons. cbn [final trace]. rewrite step_result.
  cbn [final trace handler]. destruct ls as [stream|].
  - rewrite (handleOffer_existing _ _ _ _ pc Hfind). cbn [final trace completion app].
    destruct IH as [-> ->]. done.
  - rewrite handleOffer_no_media. cbn [final trace completion app].
    destruct IH as [-> Hnone]. split; [done|]. exact Hnone.
Qed.

(** X11: the effect that subscribes the hook to the signaling channels
    runs again for every new [localStream] and the function it returns
    removes nothing, so after [n] runs there are [n] closures on each
    channel.  For a sender with a registered session, one inbound answer
    (or candidate) is then handed to [signal] of that session's primitive
    [n] times, while one inbound offer is ignored by all [n] closures;
    the state is unchanged in each case. *)
Theorem resubscription_multiplies_signals
    (userId : string) (signalThrows : Peer.t → option Signal.t → bool)
    (destroyThrows : Peer.t → bool) (_pc : Peer.t → option RTCPeerConnection.t)
    (streams : list (option MediaStream.t)) (data : WebRTCSignalData.t)
    (s : State) (pc : PeerConnection.t)
    (Hknown : findPeer (WebRTCSignalData.fromUserId data) (peersRef s) = Some pc) :
  let subscribed :=
    fold_left (fun acc localStream => subscribe localStream (unsubscribe acc)) streams [] in
  let ra := socketAnswer userId signalThrows destroyThrows _pc subscribed data s in
  let rc := socketIceCandidate userId signalThrows destroyThrows _pc subscribed data s in
  let ro := socketOffer userId signalThrows destroyThrows _pc subscribed data s in
  length subscribed = length streams ∧
  final ra = s ∧
  signalledTo (PeerConnection.peer pc) (trace ra)
  = List.repeat (WebRTCSignalData.answer data) (length streams) ∧
  final rc = s ∧
  signalledTo (PeerConnection.peer pc) (trace rc)
  = List.repeat (WebRTCSignalData.candidate data) (length streams) ∧
  final ro = s ∧ newPeerCalls (trace ro) = 0.
Proof.
  intros subscribed ra rc ro.
  assert (Hlen : length subscribed = length streams)
    by (subst subscribed; by rewrite resubscribed_length).
  split; [exact Hlen|]. rewrite <- Hlen.
  assert (Hself : ∀ q : Peer.t, Nat.eqb (Peer.handle q) (Peer.handle q) = true)
    by (intros q; apply Nat.eqb_refl).
  split; [|split; [|split; [|split]]].
  - apply (routed_signals_repeat userId signalThrows destroyThrows _pc
             InboundAnswer WebRTCSignalData.answer data s pc subscribed); [|done].
    intros s'. rewrite step_result. cbn [final trace handler].
    rewrite handleAnswer_result. cbn [final trace completion]. split; [done|].
    intros ->. rewrite app_nil_r. cbn [signalledTo flat_map]. rewrite Hself.
    by destruct (signalThrows _ _).
  - apply (routed_signals_repeat userId signalThrows destroyThrows _pc
             InboundAnswer WebRTCSignalData.answer data s pc subscribed); [|done].
    intros s'. rewrite step_result. cbn [final trace handler].
    rewrite handleAnswer_result. cbn [final trace completion]. split; [done|].
    intros ->. rewrite app_nil_r. cbn [signalledTo flat_map]. rewrite Hself.
    by destruct (signalThrows _ _).
  - apply (routed_signals_repeat userId signalThrows destroyThrows _pc
             InboundCandidate WebRTCSignalData.candidate data s pc subscribed); [|done].
    intros s'. rewrite step_result. cbn [final trace handler].
    rewrite handleIceCandidate_result. cbn [final trace completion]. split; [done|].
    intros ->. rewrite app_nil_r. cbn [signalledTo flat_map]. rewrite Hself.
    by destruct (signalThrows _ _).
  - apply (routed_signals_repeat userId signalThrows destroyThrows _pc
             InboundCandidate WebRTCSignalData.candidate data s pc subscribed); [|done].
    intros s'. rewrite step_result. cbn [final trace handler].
    rewrite handleIceCandidate_result. cbn [final trace completion]. split; [done|].
    intros ->. rewrite app_nil_r. cbn [signalledTo flat_map]. rewrite Hself.
    by destruct (signalThrows _ _).
  - by apply (offers_ignored_when_registered userId signalThrows destroyThrows _pc data s pc).
Qed.

(** Bob's page has rendered the hook with no stream, then the camera,
    then a screen share: Carol's answer is signalled three times. *)
Lemma resubscription_three_renders :
  let s := register (responderSession 0 Scenario.camera Scenario.offerFromCarol) initialState in
  let subscribed := [None; Some Scenario.camera; Some Scenario.screen] in
  (findPeer "u-carol" (peersRef s)
   = Some (responderSession 0 Scenario.camera Scenario.offerFromCarol)) ∧
  signalledTo (responderPeer 0 Scenario.camera Scenario.offerFromCarol)
              (trace (socketAnswer Scenario.bob Scenario.accepts Scenario.closes
                                   Scenario.sendersOfStream subscribed
                                   Scenario.answerFromCarol s))
  = [Some (Scenario.sdp "answer"); Some (Scenario.sdp "answer"); Some (Scenario.sdp "answer")].
Proof.
  intros s subscribed. split; [reflexivity|].
  destruct (resubscription_multiplies_signals Scenario.bob Scenario.accepts Scenario.closes
              Scenario.sendersOfStream [None; Some Scenario.camera; Some Scenario.screen]
              Scenario.answerFromCarol s
              (responderSession 0 Scenario.camera Scenario.offerFromCarol) eq_refl)
    as (_ & _ & Hsig & _).
  exact Hsig.
Defined.

(** * The socket service *)

Lemma handlersFor_add event handler s e :
  Service.handlersFor e (Service.addEventListener event handler s)
  = if String.eqb e event then Service.handlersFor event s ++ [handler]
    else Service.handlersFor e s.
Proof.
  unfold Service.handlersFor, Service.addEventListener. cbn [Service.eventHandlers].
  destruct (String.eqb_spec e event) as [->|Hne].
  - by rewrite lookup_insert_eq.
  - by rewrite lookup_insert_ne.
Qed.

Lemma handlersFor_registerHandlers registrations s event :
  Service.handlersFor event (registerHandlers registrations s)
  = Service.handlersFor event s ++ registeredFor event registrations.
Proof.
  unfold registerHandlers, registeredFor. revert s.
  induction registrations as [|[e h] rest IH]; intros s; cbn [fold_left List.filter List.map fst snd].
  - by rewrite app_nil_r.
  - rewrite IH, handlersFor_add. rewrite (String.eqb_sym e event).
    destruct (String.eqb_spec event e) as [->|_]; cbn [List.map snd];
      [by rewrite <- app_assoc | done].
Qed.

Lemma calls_emit throws event data s :
  Service.calls (Service.emit throws event data s) = Service.handlersFor event s.
Proof.
  unfold Service.emit, Service.calls. induction (Service.handlersFor event s) as [|h l IH]; [done|].
  cbn [flat_map]. rewrite flat_map_app, IH. unfold Service.call.
  by destruct (throws h).
Qed.

Lemma emit_payload throws event data s :
  Forall (fun o => match o with
                   | Service.Called e _ d => e = event ∧ d = data
                   | Service.Logged _ => True
                   end)
         (Service.emit throws event data s).
Proof.
  unfold Service.emit. induction (Service.handlersFor event s) as [|h l IH]; [constructor|].
  cbn [flat_map]. apply Forall_app. split; [|exact IH].
  unfold Service.call. destruct (throws h); repeat constructor.
Qed.

(** X12: [emit] after any series of registrations.  Every handler
    registered for the event is called, once per registration (a handler
    registered twice is called twice), in the order of registration, with
    the data emitted; a handler that throws is logged and the handlers
    after it are still called; handlers registered for other events are
    not called. *)
Theorem emit_calls_every_registration
    (throws : nat → bool) (registrations : list (string * nat)) (s : Service.t)
    (event data : string) :
  let out := Service.emit throws event data (registerHandlers registrations s) in
  Service.calls out = Service.handlersFor event s ++ registeredFor event registrations ∧
  Forall (fun o => match o with
                   | Service.Called e _ d => e = event ∧ d = data
                   | Service.Logged _ => True
                   end) out.
Proof.
  intros out. subst out. split.
  - by rewrite calls_emit, handlersFor_registerHandlers.
  - apply emit_payload.
Qed.

Lemma removeFirst_absent handler handlers :
  handler ∉ handlers → Service.removeFirst handler handlers = handlers.
Proof.
  induction handlers as [|h l IH]; [done|]. rewrite not_elem_of_cons. intros [Hne Hnin].
  cbn [Service.removeFirst]. destruct (Nat.eqb_spec h handler); [congruence|].
  by rewrite IH.
Qed.

Lemma removeFirst_last handler handlers :
  handler ∉ handlers → Service.removeFirst handler (handlers ++ [handler]) = handlers.
Proof.
  induction handlers as [|h l IH]; intros Hnin.
  - cbn. by rewrite Nat.eqb_refl.
  - apply not_elem_of_cons in Hnin as [Hne Hnin]. cbn [app Service.removeFirst].
    destruct (Nat.eqb_spec h handler); [congruence|]. by rewrite IH.
Qed.

Lemma removeFirst_app_present handler l1 l2 :
  handler ∉ l1 →
  Service.removeFirst handler (l1 ++ handler :: l2) = l1 ++ l2.
Proof.
  induction l1 as [|h l IH]; intros Hnin.
  - cbn. by rewrite Nat.eqb_refl.
  - apply not_elem_of_cons in Hnin as [Hne Hnin]. cbn [app Service.removeFirst].
    destruct (Nat.eqb_spec h handler); [congruence|]. by rewrite IH.
Qed.

Lemma handlersFor_remove event handler s e :
  Service.handlersFor e (Service.removeEventListener event handler s)
  = if String.eqb e event then Service.removeFirst handler (Service.handlersFor event s)
    else Service.handlersFor e s.
Proof.
  unfold Service.handlersFor, Service.removeEventListener.
  destruct (Service.eventHandlers s !! event) as [l|] eqn:Hl; cbn [Service.eventHandlers].
  - destruct (String.eqb_spec e event) as [->|Hne].
    + by rewrite lookup_insert_eq.
    + by rewrite lookup_insert_ne.
  - destruct (String.eqb_spec e event) as [->|Hne]; [by rewrite ?Hl | done].
Qed.

(** X13: [removeEventListener].  Removing a handler that was just
    registered gives back, for every event, the handlers there were
    before (though the event keeps an entry, now possibly empty, in the
    map); of a handler registered twice, one registration stays; removing
    a handler that is not registered for the event, or from an event
    without entry, changes no event's handlers. *)
Theorem remove_event_listener_round_trip
    (event : string) (handler : nat) (s : Service.t)
    (Hfresh : handler ∉ Service.handlersFor event s) :
  (∀ e, Service.handlersFor e
          (Service.removeEventListener event handler
             (Service.addEventListener event handler s))
        = Service.handlersFor e s) ∧
  is_Some (Service.eventHandlers
             (Service.removeEventListener event handler
                (Service.addEventListener event handler s)) !! event) ∧
  Service.handlersFor event
    (Service.removeEventListener event handler
       (Service.addEventListener event handler
          (Service.addEventListener event handler s)))
  = Service.handlersFor event s ++ [handler] ∧
  (∀ e, Service.handlersFor e (Service.removeEventListener event handler s)
        = Service.handlersFor e s).
Proof.
  split; [|split; [|split]].
  - intros e. rewrite handlersFor_remove, !handlersFor_add, String.eqb_refl.
    destruct (String.eqb e event) eqn:E; [|done].
    apply String.eqb_eq in E as ->. by apply removeFirst_last.
  - unfold Service.removeEventListener, Service.addEventListener.
    cbn [Service.eventHandlers]. rewrite lookup_insert_eq. cbn [Service.eventHandlers].
    rewrite lookup_insert_eq. by eexists.
  - rewrite handlersFor_remove, !handlersFor_add, !String.eqb_refl.
    rewrite <- app_assoc. cbn [app]. by apply removeFirst_app_present.
  - intros e. rewrite handlersFor_remove.
    destruct (String.eqb e event) eqn:E; [|done].
    apply String.eqb_eq in E as ->. by apply removeFirst_absent.
Qed.

Lemma remove_event_listener_round_trip_offer :
  let s := {| Service.forwarders := 1; Service.eventHandlers := ∅;
              Service.reconnectAttempts := 0 |} in
  (7 ∉ Service.handlersFor "offer" s) ∧
  (Service.handlersFor "offer"
     (Service.removeEventListener "offer" 7 (Service.addEventListener "offer" 7 s)) = []) ∧
  (Service.eventHandlers
     (Service.removeEventListener "offer" 7 (Service.addEventListener "offer" 7 s)) !! "offer"
   = Some []) ∧
  (Service.eventHandlers s !! "offer" = None).
Proof.
  intros s.
  assert (Hfresh : 7 ∉ Service.handlersFor "offer" s) by (cbn; apply not_elem_of_nil).
  destruct (remove_event_listener_round_trip "offer" 7 s Hfresh) as (Hsame & _ & _ & _).
  split; [exact Hfresh|]. split; [exact (Hsame "offer")|]. split; reflexivity.
Defined.

Lemma deliveries_app event a b :
  Service.deliveries event (a ++ b) = Service.deliveries event a + Service.deliveries event b.
Proof. unfold Service.deliveries. by rewrite List.filter_app, length_app. Qed.

Lemma deliveries_emit throws event data s :
  Service.deliveries event (Service.emit throws event data s)
  = length (Service.handlersFor event s).
Proof.
  unfold Service.emit. induction (Service.handlersFor event s) as [|h l IH]; [done|].
  cbn [flat_map length]. rewrite deliveries_app, IH. unfold Service.call, Service.deliveries.
  cbn [List.filter]. rewrite String.eqb_refl. by destruct (throws h).
Qed.

Lemma reconnect_errors_from throws n s :
  let r := Service.onSockets throws (List.repeat Service.ReconnectError n) s in
  Service.reconnectAttempts (fst r) = Service.reconnectAttempts s + n ∧
  Service.eventHandlers (fst r) = Service.eventHandlers s ∧
  Service.forwarders (fst r) = Service.forwarders s ∧
  Service.deliveries "reconnect_failed" (snd r)
  = length (Service.handlersFor "reconnect_failed" s)
    * ((Service.reconnectAttempts s + n - 4) - (Service.reconnectAttempts s - 4)).
Proof.
  revert s. induction n as [|n IH]; intros s.
  - cbn. repeat split; [lia | nia].
  - cbn [List.repeat Service.onSockets Service.onSocket Service.onConnect Service.onReconnectError].
    set (s' := {| Service.forwarders := Service.forwarders s;
                  Service.eventHandlers := Service.eventHandlers s;
                  Service.reconnectAttempts := S (Service.reconnectAttempts s) |}).
    specialize (IH s'). cbn zeta in IH.
    destruct (Service.onSockets throws (List.repeat Service.ReconnectError n) s')
      as [s2 out2] eqn:Hrest.
    cbn [fst snd] in *. destruct IH as (Ha & Hh & Hf & Hd).
    cbn [Service.reconnectAttempts Service.eventHandlers Service.forwarders s'] in Ha, Hh, Hf.
    assert (Hsame : Service.handlersFor "reconnect_failed" s'
                    = Service.handlersFor "reconnect_failed" s) by reflexivity.
    rewrite Hsame in Hd. cbn [Service.reconnectAttempts s'] in Hd.
    split; [lia|]. split; [done|]. split; [done|].
    change (Service.Logged "Socket reconnection error:" :: ?x) with
      ([Service.Logged "Socket reconnection error:"] ++ x).
    rewrite <- app_assoc, !deliveries_app, Hd.
    unfold Service.maxReconnectAttempts.
    change (Service.reconnectAttempts s') with (S (Service.reconnectAttempts s)).
    set (a := Service.reconnectAttempts s) in *.
    set (H := length (Service.handlersFor "reconnect_failed" s)) in *.
    destruct (Nat.leb_spec 5 (S a)) as [Hge|Hlt].
    + rewrite deliveries_emit, Hsame. fold H.
      cbn [Service.deliveries List.filter length].
      replace (S a + n - 4 - (S a - 4)) with n by lia.
      replace (a + S n - 4 - (a - 4)) with (S n) by lia. lia.
    + cbn [Service.deliveries List.filter length].
      replace (S a + n - 4 - (S a - 4)) with (a + S n - 4 - (a - 4)) by lia. lia.
Qed.

(** X14: the attempt counter.  A [connect] event sets it to zero; each
    [reconnect_error] after that adds one, and from the fifth error on,
    every error is reported to the handlers of [reconnect_failed], once
    per handler: after [n] errors the counter is [n] and each handler has
    been told [n - 4] times (never for fewer than five errors). *)
Theorem reconnect_failed_from_fifth_error
    (throws : nat → bool) (n : nat) (s : Service.t) :
  let r := Service.onSockets throws
             (Service.Connect :: List.repeat Service.ReconnectError n) s in
  Service.reconnectAttempts (fst r) = n ∧
  Service.deliveries "reconnect_failed" (snd r)
  = length (Service.handlersFor "reconnect_failed" s) * (n - 4) ∧
  Service.eventHandlers (fst r) = Service.eventHandlers s.
Proof.
  cbn [Service.onSockets Service.onSocket Service.onConnect].
  set (s' := {| Service.forwarders := S (Service.forwarders s);
                Service.eventHandlers := Service.eventHandlers s;
                Service.reconnectAttempts := 0 |}).
  pose proof (reconnect_errors_from throws n s') as H. cbn zeta in H.
  destruct (Service.onSockets throws (List.repeat Service.ReconnectError n) s') as [s2 out2].
  cbn [fst snd app] in *. destruct H as (Ha & Hh & _ & Hd).
  cbn [Service.reconnectAttempts Service.eventHandlers s'] in Ha, Hh, Hd.
  split; [lia|]. split; [|done]. rewrite Hd.
  replace (0 + n - 4 - (0 - 4)) with (n - 4) by lia. reflexivity.
Qed.








(** X16: [clearEventHandlers].  Called with an event name it silences
    that event and no other; called without a name, or with the empty
    string (which the test [if (event)] takes for no name), it silences
    every event. *)
Theorem clear_event_handlers_scope
    (throws : nat → bool) (event : option string) (s : Service.t) (e data : string) :
  Service.emit throws e data (Service.clearEventHandlers event s)
  = match event with
    | Some name =>
        if String.eqb name "" then []
        else if String.eqb e name then [] else Service.emit throws e data s
    | None => []
    end.
Proof.
  unfold Service.emit, Service.handlersFor, Service.clearEventHandlers.
  cbn [Service.eventHandlers].
  destruct event as [name|]; [|by rewrite lookup_empty].
  destruct (String.eqb name ""); [by rewrite lookup_empty|].
  destruct (String.eqb_spec e name) as [->|Hne].
  - by rewrite lookup_delete_eq.
  - by rewrite lookup_delete_ne.
Qed.

(** * The room page *)


Lemma normalize_identified p :
  RoomPage.identified p = true →
  RoomPage.truthy (Participant.userId (RoomPage.normalize p)) = true ∧
  RoomPage.truthyOpt (Participant.id (RoomPage.normalize p)) = true.
Proof.
  unfold RoomPage.identified, RoomPage.normalize.
  cbn [RoomPage.withIdentity Participant.userId Participant.id].
  destruct (RoomPage.truthy (Participant.userId p)) eqn:Hu.
  - intros _. split; [done|].
    destruct (RoomPage.truthyOpt (Participant.id p)) eqn:Hi; [done|]. by cbn.
  - cbn [orb]. intros Hi. rewrite Hi. split; [|done].
    destruct (Participant.id p) as [i|]; [by cbn in * | discriminate Hi].
Qed.




Lemma existsb_hasUserId uid l :
  existsb (RoomPage.hasUserId uid) l = false → uid ∉ List.map Participant.userId l.
Proof.
  induction l as [|p l IH]; cbn [existsb List.map]; [intros _; apply not_elem_of_nil|].
  intros H. apply orb_false_iff in H as [Hp Hl]. apply not_elem_of_cons. split; [|by apply IH].
  unfold RoomPage.hasUserId in Hp. apply String.eqb_neq in Hp. congruence.
Qed.

(** X18: the [participant-joined] listener never puts a second entry
    with the same [userId] into the list.  It appends at most one entry
    at the end and leaves what is there in place; if the [userId]s were
    pairwise distinct they still are; and a repeated notification for
    the same user changes nothing more. *)
Theorem participant_joined_no_duplicates
    (user : option Participant.t) (prev : list Participant.t)
    (Hdistinct : NoDup (List.map Participant.userId prev)) :
  let l := RoomPage.onParticipantJoined user prev in
  NoDup (List.map Participant.userId l) ∧
  (∃ tail, l = prev ++ tail ∧ length tail ≤ 1) ∧
  RoomPage.onParticipantJoined user l = l.
Proof.
  intros l. subst l. unfold RoomPage.onParticipantJoined.
  assert (Hsame : ∃ tail : list Participant.t, prev = prev ++ tail ∧ length tail ≤ 1)
    by (exists []; split; [by rewrite app_nil_r | cbn; lia]).
  destruct user as [u|]; [|done].
  destruct (RoomPage.identified u) eqn:Hid; [|done].
  destruct (existsb (RoomPage.hasUserId (Participant.userId (RoomPage.normalize u))) prev)
    eqn:Hex.
  - split; [done|]. split; [done|]. by rewrite Hex.
  - split; [|split].
    + rewrite List.map_app. apply NoDup_app. split; [done|]. split; [|apply NoDup_singleton].
      intros x Hx Hx'. apply list_elem_of_singleton in Hx'. subst x.
      by apply existsb_hasUserId in Hex.
    + exists [RoomPage.normalize u]. split; [done | cbn; lia].
    + rewrite existsb_app. cbn [existsb]. unfold RoomPage.hasUserId at 2.
      by rewrite String.eqb_refl, orb_true_r.
Qed.

Lemma participant_joined_twice :
  let l := RoomPage.onParticipantJoined (Some Scenario.carol) [Scenario.alice] in
  NoDup (List.map Participant.userId [Scenario.alice]) ∧
  List.map Participant.userId l = ["u-alice"; "u-carol"] ∧
  RoomPage.onParticipantJoined (Some Scenario.carol) l = l.
Proof.
  intros l.
  assert (Hd : NoDup (List.map Participant.userId [Scenario.alice])) by apply NoDup_singleton.
  destruct (participant_joined_no_duplicates (Some Scenario.carol) [Scenario.alice] Hd)
    as (_ & _ & Hagain).
  split; [exact Hd|]. split; [reflexivity | exact Hagain].
Defined.

Lemma removePeer_normal destroyThrows uid s :
  completion (removePeer destroyThrows uid s) = Normal tt.
Proof.
  destruct (findPeer uid (peersRef s)) as [pc|] eqn:Hfind.
  - by rewrite (removePeer_present _ _ _ pc Hfind).
  - by rewrite removePeer_absent.
Qed.

Lemma removePeer_sessions_gone destroyThrows uid s :
  sessionsFor uid (peersRef (final (removePeer destroyThrows uid s))) = [] ∧
  destroyCalls (trace (removePeer destroyThrows uid s)) ≤ 1.
Proof.
  destruct (findPeer uid (peersRef s)) as [pc|] eqn:Hfind.
  - rewrite (removePeer_present _ _ _ pc Hfind).
    cbn [final trace peersRef setConnectionStates setPeers set_peersRef].
    split; [apply sessionsFor_withoutPeer|]. unfold destroyCalls.
    by destruct (destroyThrows (PeerConnection.peer pc)).
  - rewrite removePeer_absent by done. cbn [final trace]. split; [|cbn; lia].
    apply sessionsFor_absent. by apply findPeer_None.
Qed.

Lemma onParticipantLeft_result destroyThrows uid prev s :
  RoomPage.truthy uid = true →
  RoomPage.onParticipantLeft destroyThrows uid prev s
  = mkResult (Normal (List.filter (fun p => negb (RoomPage.named uid p)) prev))
             (final (removePeer destroyThrows uid s))
             (trace (removePeer destroyThrows uid s)).
Proof.
  intros Huid. unfold RoomPage.onParticipantLeft, handleParticipantLeft. rewrite Huid.
  rewrite mbind_run, removePeer_normal. cbn [mret M_ret ret completion final trace].
  by rewrite app_nil_r.
Qed.

(** X19: the [participant-left] listener of the page.  For a non-empty
    [userId] it returns the list without every entry whose [userId] or
    [id] is that value, the other entries kept in order, and has the hook
    drop the user's sessions: afterwards neither the list nor the
    registry knows the user, and [destroy] was called at most once.  For
    an empty [userId] it does nothing, and the hook is not called. *)
Theorem page_participant_left
    (destroyThrows : Peer.t → bool) (uid : string) (prev : list Participant.t) (s : State) :
  let r := RoomPage.onParticipantLeft destroyThrows uid prev s in
  (RoomPage.truthy uid = true →
     ∃ l, completion r = Normal l ∧
          l = List.filter (fun p => negb (RoomPage.named uid p)) prev ∧
          Forall (fun p => Participant.userId p ≠ uid ∧ Participant.id p ≠ Some uid) l ∧
          sessionsFor uid (peersRef (final r)) = [] ∧
          destroyCalls (trace r) ≤ 1) ∧
  (RoomPage.truthy uid = false → r = mkResult (Normal prev) s []).
Proof.
  intros r. subst r. split.
  - intros Huid. rewrite onParticipantLeft_result by done. cbn [completion final trace].
    eexists. split; [done|]. split; [done|].
    split; [|apply removePeer_sessions_gone].
    apply List.Forall_forall. intros p Hin. apply List.filter_In in Hin as [_ Hnot].
    apply negb_true_iff in Hnot. unfold RoomPage.named in Hnot.
    apply orb_false_iff in Hnot as [Hu Hi]. apply String.eqb_neq in Hu. split; [done|].
    destruct (Participant.id p) as [i|]; [|done].
    apply String.eqb_neq in Hi. congruence.
  - intros Huid. unfold RoomPage.onParticipantLeft. by rewrite Huid.
Qed.

Lemma page_participant_left_carol :
  let s := register (responderSession 0 Scenario.camera Scenario.offerFromCarol) initialState in
  let prev := [Scenario.alice; Scenario.carol] in
  (RoomPage.truthy "u-carol" = true) ∧ (RoomPage.truthy "" = false) ∧
  (completion (RoomPage.onParticipantLeft Scenario.closes "u-carol" prev s)
   = Normal [Scenario.alice]) ∧
  (RoomPage.onParticipantLeft Scenario.closes "" prev s = mkResult (Normal prev) s []).
Proof.
  intros s prev.
  destruct (page_participant_left Scenario.closes "u-carol" prev s) as [Hleft _].
  destruct (page_participant_left Scenario.closes "" prev s) as [_ Hempty].
  destruct (Hleft eq_refl) as (l & Hl & -> & _).
  split; [reflexivity|]. split; [reflexivity|].
  split; [exact Hl | exact (Hempty eq_refl)].
Defined.

(** X20: a participant who joins and then leaves, leaves the page's
    list as it was, provided the notification identifies the participant
    and no entry of the list carries the participant's [userId], as
    [userId] or as [id]. *)
Theorem page_join_then_leave
    (destroyThrows : Peer.t → bool) (u : Participant.t) (prev : list Participant.t) (s : State)
    (Hid : RoomPage.identified u = true)
    (Hnew : Forall (fun p => RoomPage.named (Participant.userId (RoomPage.normalize u)) p = false)
                   prev) :
  completion (RoomPage.onParticipantLeft destroyThrows
                (Participant.userId (RoomPage.normalize u))
                (RoomPage.onParticipantJoined (Some u) prev) s)
  = Normal prev.
Proof.
  destruct (normalize_identified u Hid) as [Htruthy _].
  rewrite onParticipantLeft_result by done. cbn [completion]. f_equal.
  unfold RoomPage.onParticipantJoined. rewrite Hid.
  assert (Hkeep : List.filter
                    (fun p => negb (RoomPage.named (Participant.userId (RoomPage.normalize u)) p))
                    prev = prev).
  { induction Hnew as [|p l Hp _ IH]; [done|]. cbn [List.filter]. rewrite Hp. cbn [negb].
    by rewrite IH. }
  destruct (existsb _ prev); [exact Hkeep|].
  rewrite List.filter_app, Hkeep. cbn [List.filter]. unfold RoomPage.named at 1.
  rewrite String.eqb_refl. cbn [orb negb]. by rewrite app_nil_r.
Qed.

Lemma page_join_then_leave_carol :
  RoomPage.identified Scenario.carol = true ∧
  Forall (fun p => RoomPage.named (Participant.userId (RoomPage.normalize Scenario.carol)) p
                   = false) [Scenario.alice] ∧
  completion (RoomPage.onParticipantLeft Scenario.closes
                (Participant.userId (RoomPage.normalize Scenario.carol))
                (RoomPage.onParticipantJoined (Some Scenario.carol) [Scenario.alice])
                initialState)
  = Normal [Scenario.alice].
Proof.
  assert (Hnew : Forall (fun p => RoomPage.named
                                    (Participant.userId (RoomPage.normalize Scenario.carol)) p
                                  = false) [Scenario.alice])
    by (repeat constructor).
  split; [reflexivity|]. split; [exact Hnew|].
  exact (page_join_then_leave Scenario.closes Scenario.carol [Scenario.alice] initialState
           eq_refl Hnew).
Defined.

Lemma updateNamed_keeps uid f prev :
  (∀ p, Participant.userId (f p) = Participant.userId p ∧
        Participant.id (f p) = Participant.id p) →
  List.map Participant.userId (RoomPage.updateNamed uid f prev)
  = List.map Participant.userId prev ∧
  List.filter (fun p => negb (RoomPage.named uid p)) (RoomPage.updateNamed uid f prev)
  = List.filter (fun p => negb (RoomPage.named uid p)) prev ∧
  List.filter (RoomPage.named uid) (RoomPage.updateNamed uid f prev)
  = List.map f (List.filter (RoomPage.named uid) prev).
Proof.
  intros Hf. unfold RoomPage.updateNamed.
  induction prev as [|p l (IH1 & IH2 & IH3)]; [done|]. cbn [List.map List.filter].
  destruct (RoomPage.named uid p) eqn:Hp.
  - destruct (Hf p) as [Hu Hi].
    assert (Hfp : RoomPage.named uid (f p) = true)
      by (unfold RoomPage.named in *; by rewrite Hu, Hi).
    rewrite Hfp, Hu, IH1, IH2, IH3. done.
  - rewrite Hp, IH1, IH2, IH3. done.
Qed.

Lemma updateNamed_sets uid f (P : Participant.t → Prop) prev :
  (∀ p, Participant.userId (f p) = Participant.userId p ∧
        Participant.id (f p) = Participant.id p) →
  (∀ p, P (f p)) →
  Forall P (List.filter (RoomPage.named uid) (RoomPage.updateNamed uid f prev)).
Proof.
  intros Hf HP. destruct (updateNamed_keeps uid f prev Hf) as (_ & _ & ->).
  apply List.Forall_forall. intros p Hin. apply List.in_map_iff in Hin as (q & <- & _).
  apply HP.
Qed.

(** X21: the four media listeners of the page (audio changed, video
    changed, screen share started and stopped).  Each keeps the
    participants, their [userId]s and their order; entries that are not
    the named user are returned as they are; every entry of the named
    user carries the new value afterwards. *)
Theorem media_listeners_keep_the_list
    (uid : string) (enabled : option bool) (prev : list Participant.t) :
  let others l := List.filter (fun p => negb (RoomPage.named uid p)) l in
  let named l := List.filter (RoomPage.named uid) l in
  (List.map Participant.userId (RoomPage.onParticipantAudioChanged uid enabled prev)
   = List.map Participant.userId prev ∧
   others (RoomPage.onParticipantAudioChanged uid enabled prev) = others prev ∧
   Forall (fun p => Participant.audioEnabled p = enabled)
          (named (RoomPage.onParticipantAudioChanged uid enabled prev))) ∧
  (List.map Participant.userId (RoomPage.onParticipantVideoChanged uid enabled prev)
   = List.map Participant.userId prev ∧
   others (RoomPage.onParticipantVideoChanged uid enabled prev) = others prev ∧
   Forall (fun p => Participant.videoEnabled p = enabled)
          (named (RoomPage.onParticipantVideoChanged uid enabled prev))) ∧
  (List.map Participant.userId (RoomPage.onScreenShareStarted uid prev)
   = List.map Participant.userId prev ∧
   others (RoomPage.onScreenShareStarted uid prev) = others prev ∧
   Forall (fun p => Participant.screenSharing p = Some true)
          (named (RoomPage.onScreenShareStarted uid prev))) ∧
  (List.map Participant.userId (RoomPage.onScreenShareStopped uid prev)
   = List.map Participant.userId prev ∧
   others (RoomPage.onScreenShareStopped uid prev) = others prev ∧
   Forall (fun p => Participant.screenSharing p = Some false)
          (named (RoomPage.onScreenShareStopped uid prev))).
Proof.
  intros others named. subst others named.
  unfold RoomPage.onParticipantAudioChanged, RoomPage.onParticipantVideoChanged,
    RoomPage.onScreenShareStarted, RoomPage.onScreenShareStopped.
  repeat split;
    first [ by apply updateNamed_keeps
          | by apply (updateNamed_sets uid) ].
Qed.

Lemma length_initiatorSessions n stream members :
  length (initiatorSessions n stream members) = length members.
Proof.
  revert n. induction members as [|u l IH]; intros n; [done|].
  cbn [initiatorSessions length]. by rewrite IH.
Qed.

Lemma remoteMembers_notMe me participants :
  List.filter (RoomPage.notMe (Some me)) participants = remoteMembers me participants.
Proof. reflexivity. Qed.

Lemma remoteMembers_idempotent me participants :
  remoteMembers me (remoteMembers me participants) = remoteMembers me participants.
Proof.
  unfold remoteMembers. induction participants as [|p l IH]; [done|]. cbn [List.filter].
  destruct (negb (String.eqb (Participant.userId p) me)) eqn:E; [|exact IH].
  cbn [List.filter]. by rewrite E, IH.
Qed.

Lemma truthy_or_empty me : (if RoomPage.truthy me then me else "") = me.
Proof.
  unfold RoomPage.truthy. by destruct (String.eqb_spec me "") as [->|].
Qed.

(** X22: the effect of the page that starts the negotiation, on a hook
    that is not yet initialized.  It does nothing before the room is
    joined, without a local stream, or while the participant list has
    fewer than two entries (a single entry is taken to be the local user,
    whoever it is).  Otherwise the registry grows by exactly one
    initiator session per listed participant other than the local user,
    in list order. *)
Theorem page_initialize_effect
    (joined : bool) (localStream : option MediaStream.t)
    (participants : list Participant.t) (me : string) (s : State)
    (Hidle : isInitialized s = false) :
  let r := RoomPage.initializeEffect joined localStream participants (Some me) s in
  (joined = false ∨ localStream = None ∨ length participants ≤ 1 →
     r = mkResult (Normal tt) s []) ∧
  (∀ stream, joined = true → localStream = Some stream → 2 ≤ length participants →
     completion r = Normal tt ∧
     peersRef (final r)
     = peersRef s ++ initiatorSessions (fresh s) stream (remoteMembers me participants) ∧
     newPeerCalls (trace r) = length (remoteMembers me participants)).
Proof.
  intros r. subst r. unfold RoomPage.initializeEffect. split.
  - intros [->|[->|Hlen]]; [by destruct localStream | done |].
    destruct localStream as [stream|]; [|done].
    destruct (Nat.ltb_spec 1 (length participants)) as [Hgt|_]; [lia|].
    by rewrite andb_false_r.
  - intros stream -> -> Hlen.
    destruct (Nat.ltb_spec 1 (length participants)) as [_|Hle]; [|lia]. cbn [andb].
    rewrite remoteMembers_notMe, truthy_or_empty.
    destruct (Nat.ltb_spec 0 (length (remoteMembers me participants))) as [Hpos|Hzero].
    + rewrite initializeWebRTC_first by done. cbn [completion final trace].
      rewrite peersRef_registerAll, remoteMembers_idempotent, newPeerCalls_map.
      split; [done|]. split; [done|]. apply length_initiatorSessions.
    + assert (Hnil : remoteMembers me participants = [])
        by (destruct (remoteMembers me participants); [done | cbn in Hzero; lia]).
      rewrite Hnil. cbn. by rewrite app_nil_r.
Qed.

Lemma page_initialize_effect_examples :
  let bob := Scenario.participant "u-bob" "bob" "Bob" "Ross" "attendee" in
  isInitialized initialState = false ∧
  (RoomPage.initializeEffect true (Some Scenario.camera) [Scenario.alice] (Some "u-bob")
                             initialState
   = mkResult (Normal tt) initialState []) ∧
  (peersRef (final (RoomPage.initializeEffect true (Some Scenario.camera)
                      [Scenario.alice; bob] (Some "u-bob") initialState))
   = peersRef initialState
     ++ initiatorSessions (fresh initialState) Scenario.camera
                          (remoteMembers "u-bob" [Scenario.alice; bob])).
Proof.
  intros bob.
  destruct (page_initialize_effect true (Some Scenario.camera) [Scenario.alice] "u-bob"
              initialState eq_refl) as [Hnone _].
  destruct (page_initialize_effect true (Some Scenario.camera) [Scenario.alice; bob] "u-bob"
              initialState eq_refl) as [_ Hsome].
  destruct (Hsome Scenario.camera eq_refl eq_refl) as (_ & Hreg & _); [cbn; lia|].
  split; [reflexivity|]. split; [|exact Hreg].
  apply Hnone. right; right. cbn. lia.
Defined.

(** * The earlier variant of the hook *)

Lemma constructedPeers_app a b :
  constructedPeers (a ++ b) = constructedPeers a ++ constructedPeers b.
Proof. unfold constructedPeers. apply flat_map_app. Qed.

Lemma legacy_initialize_loop userId i0 stream l s :
  let r := forEach (fun participant =>
                      if negb (String.eqb (Legacy.Participant.userId participant) userId)
                      then Legacy.createPeer i0
                             (Legacy.Participant.userId participant)
                             (Legacy.Participant.username participant)
                             (Legacy.Participant.socketId participant) stream ;; mret tt
                      else mret tt) l s in
  completion r = Normal tt ∧
  Legacy.isInitiator (final r) = Legacy.isInitiator s ∧
  ∃ created,
    Legacy.peersRef (final r) = Legacy.peersRef s ++ created ∧
    Legacy.peers (final r) = Legacy.peers s ++ created ∧
    List.map Legacy.PeerConnection.userId created
    = List.map Legacy.Participant.userId
        (List.filter (fun p => negb (String.eqb (Legacy.Participant.userId p) userId)) l) ∧
    Forall (fun pc => Peer.initiator (Legacy.PeerConnection.peer pc) = i0) created ∧
    constructedPeers (trace r) = List.map Legacy.PeerConnection.peer created.
Proof.
  revert s. induction l as [|u l IH]; intros s.
  - cbn. repeat split. exists []. by rewrite !app_nil_r.
  - cbn [forEach List.filter]. rewrite mbind_run.
    destruct (negb (String.eqb (Legacy.Participant.userId u) userId)) eqn:E.
    + rewrite mbind_run.
      set (pc := {| Legacy.PeerConnection.peerId := Legacy.Participant.socketId u;
                    Legacy.PeerConnection.peer :=
                      createdPeer (Legacy.fresh s) stream i0
                                  (Legacy.Participant.userId u) (Legacy.Participant.username u);
                    Legacy.PeerConnection.stream := None;
                    Legacy.PeerConnection.userId := Legacy.Participant.userId u;
                    Legacy.PeerConnection.username := Legacy.Participant.username u |}).
      change (Legacy.createPeer i0 (Legacy.Participant.userId u) (Legacy.Participant.username u)
                (Legacy.Participant.socketId u) stream s)
        with (mkResult (Normal (Legacy.PeerConnection.peer pc))
                {| Legacy.peersRef := Legacy.peersRef s ++ [pc];
                   Legacy.peers := Legacy.peers s ++ [pc];
                   Legacy.isInitiator := Legacy.isInitiator s;
                   Legacy.fresh := S (Legacy.fresh s) |}
                [NewPeer (Legacy.PeerConnection.peer pc)]).
      cbn [completion final trace mret M_ret ret].
      match goal with |- context [forEach ?f l ?s1] => specialize (IH s1) end.
      cbn zeta in IH. destruct IH as (Hc & Hi & created & Href & Hpeers & Hids & Hall & Hnew).
      cbn [Legacy.peersRef Legacy.peers Legacy.isInitiator] in Hi, Href, Hpeers.
      split; [exact Hc|]. split; [exact Hi|]. exists (pc :: created).
      rewrite Href, Hpeers, <- !app_assoc. cbn [app List.map].
      rewrite Hids. change (constructedPeers (NewPeer ?q :: ?t)) with (q :: constructedPeers t).
      rewrite Hnew. repeat split. by constructor.
    + cbn [completion final trace mret M_ret ret app]. apply IH.
Qed.

(** X23: the election of the earlier variant comes one render too late
    for the sessions it is made for.  [initializeWebRTC] stores whether
    the local user is first by join time, but the primitives it
    constructs in the same call are built with the value of [isInitiator]
    from before the call: on a new hook, where that value is [false],
    every session is created as responder, whatever the join order. *)
Theorem legacy_election_is_stale
    (userId : string) (sortByJoinedAt : list Legacy.Participant.t → list Legacy.Participant.t)
    (participants : list Legacy.Participant.t) (stream : MediaStream.t) (s : Legacy.State) :
  let r := Legacy.initializeWebRTC userId sortByJoinedAt participants stream s in
  completion r = Normal tt ∧
  Legacy.isInitiator (final r)
  = match sortByJoinedAt participants with
    | p :: _ => String.eqb (Legacy.Participant.userId p) userId
    | [] => false
    end ∧
  Forall (fun p => Peer.initiator p = Legacy.isInitiator s) (constructedPeers (trace r)) ∧
  ∃ created,
    Legacy.peersRef (final r) = Legacy.peersRef s ++ created ∧
    Forall (fun pc => Peer.initiator (Legacy.PeerConnection.peer pc) = Legacy.isInitiator s)
           created ∧
    List.map Legacy.PeerConnection.userId created
    = List.map Legacy.Participant.userId
        (List.filter (fun p => negb (String.eqb (Legacy.Participant.userId p) userId))
                     (sortByJoinedAt participants)).
Proof.
  intros r. subst r. unfold Legacy.initializeWebRTC.
  rewrite mbind_run. cbn [get completion final trace app].
  rewrite mbind_run. cbn [modify completion final trace app].
  match goal with |- context [forEach ?f ?l ?s1] =>
    pose proof (legacy_initialize_loop userId (Legacy.isInitiator s) stream l s1) as H
  end.
  cbn zeta in H. destruct H as (Hc & Hi & created & Href & _ & Hids & Hall & Hnew).
  cbn [Legacy.peersRef Legacy.isInitiator Legacy.setIsInitiator] in Hi, Href.
  split; [exact Hc|]. split; [exact Hi|]. split.
  - rewrite Hnew. apply List.Forall_forall. intros p Hin.
    apply List.in_map_iff in Hin as (pc & <- & Hin).
    by eapply List.Forall_forall in Hall.
  - by exists created.
Qed.

Lemma legacy_destroy_result destroyThrows p (s : Legacy.State) :
  Legacy.destroy destroyThrows p s
  = mkResult (if destroyThrows p then Throw "destroy" else Normal tt) s [PeerDestroy p].
Proof. unfold Legacy.destroy. run_monad. by destruct (destroyThrows p). Qed.

Lemma legacy_destroy_loop_result destroyThrows l s :
  let r := forEach (fun peerConnection =>
                      Legacy.destroy destroyThrows (Legacy.PeerConnection.peer peerConnection))
                   l s in
  final r = s ∧
  completion r
  = (if existsb (fun pc => destroyThrows (Legacy.PeerConnection.peer pc)) l
     then Throw "destroy" else Normal tt) ∧
  (existsb (fun pc => destroyThrows (Legacy.PeerConnection.peer pc)) l = false →
   destroyedPeers (trace r) = List.map Legacy.PeerConnection.peer l) ∧
  (1 ≤ length l → 1 ≤ destroyCalls (trace r)) ∧
  destroyCalls (trace r) ≤ length l.
Proof.
  induction l as [|pc l IH]; [cbn; repeat split; lia|].
  cbn [forEach existsb List.map length]. rewrite mbind_run, legacy_destroy_result.
  cbn [completion final trace].
  destruct (destroyThrows (Legacy.PeerConnection.peer pc)) eqn:Hpc; cbn [orb].
  - cbn [completion final trace]. repeat split; [discriminate | cbn; lia | cbn; lia].
  - cbn zeta in IH. destruct IH as (Hs & Hc & Hd & _ & Hn).
    cbn [completion final trace]. rewrite Hs, Hc. split; [done|]. split; [done|].
    unfold destroyCalls in *. cbn [app List.filter isDestroy length destroyedPeers flat_map].
    split; [|split; lia].
    intros Hnone. f_equal. by apply Hd.
Qed.

(** X24: [cleanup] of the earlier variant has no [try]/[catch].  If no
    [destroy] throws, every session's primitive is destroyed, in order,
    and the registry and [peers] end up empty.  If one throws, the
    exception leaves [cleanup] at that point: the sessions after it are
    not destroyed and nothing is cleared, so the registry still lists
    every session, the destroyed ones included. *)
Theorem legacy_cleanup_aborts_on_exception
    (destroyThrows : Peer.t → bool) (s : Legacy.State) :
  let r := Legacy.cleanup destroyThrows s in
  let throwing := existsb (fun pc => destroyThrows (Legacy.PeerConnection.peer pc))
                          (Legacy.peersRef s) in
  (throwing = false →
     completion r = Normal tt ∧
     Legacy.peersRef (final r) = [] ∧ Legacy.peers (final r) = [] ∧
     destroyedPeers (trace r) = List.map Legacy.PeerConnection.peer (Legacy.peersRef s)) ∧
  (throwing = true →
     completion r = Throw "destroy" ∧ final r = s ∧
     1 ≤ destroyCalls (trace r) ∧ destroyCalls (trace r) ≤ length (Legacy.peersRef s)).
Proof.
  intros r throwing. subst r throwing. unfold Legacy.cleanup.
  rewrite mbind_run. cbn [get completion final trace app]. rewrite mbind_run.
  destruct (legacy_destroy_loop_result destroyThrows (Legacy.peersRef s) s)
    as (Hs & Hc & Hd & Hone & Hn).
  cbn zeta in Hs, Hc, Hd, Hone, Hn. rewrite Hc, Hs. split.
  - intros Hnone. rewrite Hnone. run_monad. cbn [Legacy.peersRef Legacy.peers
      Legacy.setPeers Legacy.set_peersRef].
    rewrite !app_nil_r. by repeat split; [apply Hd].
  - intros Hsome. rewrite Hsome. cbn [completion final trace].
    split; [done|]. split; [done|]. split; [|exact Hn].
    apply Hone. destruct (Legacy.peersRef s); [discriminate Hsome | cbn; lia].
Qed.

Lemma legacy_cleanup_examples :
  let s := final (Legacy.initializeWebRTC Scenario.bob LegacyScenario.sorted
                    [LegacyScenario.alice] Scenario.camera Legacy.initialState) in
  (existsb (fun pc => Scenario.closes (Legacy.PeerConnection.peer pc)) (Legacy.peersRef s)
   = false) ∧
  (existsb (fun pc => (fun _ => true) (Legacy.PeerConnection.peer pc)) (Legacy.peersRef s)
   = true) ∧
  (Legacy.peersRef (final (Legacy.cleanup Scenario.closes s)) = []) ∧
  (final (Legacy.cleanup (fun _ => true) s) = s).
Proof.
  intros s.
  destruct (legacy_cleanup_aborts_on_exception Scenario.closes s) as [Hok _].
  destruct (legacy_cleanup_aborts_on_exception (fun _ => true) s) as [_ Hthrow].
  destruct (Hok eq_refl) as (_ & Hempty & _).
  destruct (Hthrow eq_refl) as (_ & Hsame & _).
  split; [reflexivity|]. split; [reflexivity|]. split; [exact Hempty | exact Hsame].
Defined.

(** * An offer the primitive refuses *)

(** X25: when the primitive throws on the offer it is fed, the
    exception leaves [handleOffer] after the primitive was constructed
    and before the session is pushed.  The registry, [peers] and the
    connection-state map are as before, so the sender is still unknown;
    the primitive that was constructed is not destroyed, and as no
    session holds it, neither a departure nor [cleanup] will destroy it
    later. *)
Theorem refused_offer_leaves_primitive
    (signalThrows : Peer.t → option Signal.t → bool) (destroyThrows : Peer.t → bool)
    (stream : MediaStream.t) (data : WebRTCSignalData.t) (s : State)
    (Hnew : findPeer (WebRTCSignalData.fromUserId data) (peersRef s) = None)
    (Hrefused : signalThrows (responderPeer (fresh s) stream data)
                             (WebRTCSignalData.offer data) = true) :
  let r := handleOffer signalThrows (Some stream) data s in
  completion r = Throw "signal" ∧
  constructedPeers (trace r) = [responderPeer (fresh s) stream data] ∧
  destroyedPeers (trace r) = [] ∧
  peersRef (final r) = peersRef s ∧ peers (final r) = peers s ∧
  connectionStates (final r) = connectionStates s ∧
  findPeer (WebRTCSignalData.fromUserId data) (peersRef (final r)) = None ∧
  destroyedPeers (trace (cleanup destroyThrows (final r)))
  = List.map PeerConnection.peer (peersRef s).
Proof.
  intros r. subst r. rewrite handleOffer_rejected by done.
  cbn [completion final trace peersRef peers connectionStates bump_fresh].
  do 7 (split; [done|]). rewrite cleanup_result. cbn [trace peersRef bump_fresh].
  induction (peersRef s) as [|pc l IH]; [done|].
  cbn [flat_map List.map]. rewrite destroyedPeers_app.
  assert (Htail : destroyedPeers
            (flat_map (fun pc0 => PeerDestroy (PeerConnection.peer pc0)
                         :: (if destroyThrows (PeerConnection.peer pc0)
                             then [ConsoleError "Error destroying peer during cleanup:"]
                             else [])) l)
          = List.map PeerConnection.peer l).
  { clear. induction l as [|q l IH]; [done|]. cbn [flat_map List.map].
    rewrite destroyedPeers_app, IH. by destruct (destroyThrows (PeerConnection.peer q)). }
  rewrite Htail. by destruct (destroyThrows (PeerConnection.peer pc)).
Qed.

Lemma refused_offer_leaves_primitive_carol :
  (findPeer "u-carol" (peersRef initialState) = None) ∧
  (Scenario.rejects (responderPeer 0 Scenario.camera Scenario.offerFromCarol)
                    (WebRTCSignalData.offer Scenario.offerFromCarol) = true) ∧
  (constructedPeers (trace (handleOffer Scenario.rejects (Some Scenario.camera)
                                        Scenario.offerFromCarol initialState))
   = [responderPeer 0 Scenario.camera Scenario.offerFromCarol]) ∧
  (peersRef (final (handleOffer Scenario.rejects (Some Scenario.camera)
                                Scenario.offerFromCarol initialState)) = []).
Proof.
  destruct (refused_offer_leaves_primitive Scenario.rejects Scenario.closes Scenario.camera
              Scenario.offerFromCarol initialState eq_refl eq_refl)
    as (_ & Hnew & _ & Hreg & _).
  split; [reflexivity|]. split; [reflexivity|]. split; [exact Hnew | exact Hreg].
Defined.
